(** * xchainer/gradient_check.cc: numerical gradient check

    A shallow embedding of [src/xchainer/gradient_check.cc] (namespace
    [xchainer::gradient_internal]) and the properties its specification
    states about it.

    Modelling choices.
    - Element values are IEEE-754 numbers of Rocq's [SpecFloat]: a [float]
      is a binary32 number (precision 24, emax 128), a [double] a binary64
      number (precision 53, emax 1024).  Arithmetic is [SFadd], [SFsub],
      [SFmul], [SFdiv], [SFsqrt] at the format of the native type, a
      conversion between native types is a rounding to the target format.
    - An element buffer ([shared_ptr<void>] read through
      [static_cast<T*>]) is the list of the numbers it holds; an access
      outside of the buffer, or through a native type other than the one
      of the array's dtype, is undefined behaviour ([Undefined]).
    - [assert(false)] aborts ([AssertFailed]): the build keeps assertions.
    - A C++ exception is an outcome [Throw e].
    - The caller's function [func] is a function on arrays; each of its
      invocations is recorded in a trace, so that "func was never invoked"
      is a statement about the trace.
    - The computational graph is kept by value: an array holds its
      [ArrayNode], which holds the [OpNode] that produced it, which holds
      the nodes of its inputs.
    - What the source uses of the headers that are not in src/ is either
      modelled from the specification (the arrays and their constructors,
      the scalars, the elementwise product) or a parameter of the
      development (the arithmetic of the dtypes other than the two
      floating-point ones, the sum of two scalars, [AllClose],
      [Backward], the failure of the read of an absent gradient). *)

From Stdlib Require Import ZArith List String Lia Bool.
From Stdlib Require Import Floats.SpecFloat.
From stdpp Require Import base list.

Local Open Scope Z_scope.

(** ** Outcomes of a computation *)

Inductive Exn :=
| XchainerError (msg : string)
| invalid_argument (msg : string)
| AssertionError (msg : string)
| out_of_range.

Inductive Outcome (A : Type) :=
| Ok (a : A)
| Throw (e : Exn)
| AssertFailed
| Undefined.

Arguments Ok {A} a.
Arguments Throw {A} e.
Arguments AssertFailed {A}.
Arguments Undefined {A}.

Definition obind {A B} (m : Outcome A) (k : A -> Outcome B) : Outcome B :=
  match m with
  | Ok a => k a
  | Throw e => Throw e
  | AssertFailed => AssertFailed
  | Undefined => Undefined
  end.

Notation "x <~ m ;; k" := (obind m (fun x => k))
  (at level 20, m at level 99, k at level 200, only parsing).

(** [for (int64_t i = start; i < start + count; ++i) s = body(i, s);] *)
Fixpoint ofor {S : Type} (start : Z) (count : nat)
    (body : Z -> S -> Outcome S) (s : S) : Outcome S :=
  match count with
  | O => Ok s
  | Datatypes.S n => s' <~ body start s ;; ofor (start + 1) n body s'
  end.

(** ** Dtypes and native arithmetic *)

(** The source names [Dtype::kFloat32] and [Dtype::kFloat64]; the other
    enumerators of [Dtype] (dtype.h) are kept apart by a number. *)
Inductive Dtype := kFloat32 | kFloat64 | kOther (k : nat).

Definition Dtype_eqb (a b : Dtype) : bool :=
  match a, b with
  | kFloat32, kFloat32 => true
  | kFloat64, kFloat64 => true
  | kOther k, kOther k' => Nat.eqb k k'
  | _, _ => false
  end.

(** The dtypes [Sum], [Get] and [Set] support. *)
Definition supported (d : Dtype) : bool :=
  match d with
  | kFloat32 | kFloat64 => true
  | kOther _ => false
  end.

(** Rounding of a number to the format [(prec, emax)]. *)
Definition SFround (prec emax : Z) (x : spec_float) : spec_float :=
  match x with
  | S754_finite s m e => binary_round prec emax s m e
  | _ => x
  end.

(** The numbers that are not below zero: no negative finite number and no
    negative infinity. *)
Definition not_negative (x : spec_float) : Prop :=
  match x with
  | S754_finite true _ _ | S754_infinity true => False
  | _ => True
  end.

(** [static_cast<float>] and [static_cast<double>]. *)
Definition to_float : spec_float -> spec_float := SFround 24 128.
Definition to_double : spec_float -> spec_float := SFround 53 1024.

(** The native arithmetic of an element type: what [VisitDtype] selects
    for a dtype. *)
Record NativeOps := mkNativeOps {
  n_add : spec_float -> spec_float -> spec_float;
  n_sub : spec_float -> spec_float -> spec_float;
  n_mul : spec_float -> spec_float -> spec_float;
  n_div : spec_float -> spec_float -> spec_float;
  n_cast : spec_float -> spec_float
}.

Definition float_ops : NativeOps :=
  mkNativeOps (SFadd 24 128) (SFsub 24 128) (SFmul 24 128) (SFdiv 24 128) to_float.

Definition double_ops : NativeOps :=
  mkNativeOps (SFadd 53 1024) (SFsub 53 1024) (SFmul 53 1024) (SFdiv 53 1024) to_double.

(** ** Scalars *)

(** Modelled from the spec: the class [Scalar] (scalar.h is not in src/),
    "a single numeric value tagged with a dtype, convertible to/from
    built-in numeric types". *)
Record Scalar := mkScalar { s_value : spec_float; s_dtype : Dtype }.

(** [Scalar(float v)] and [Scalar(double v)]. *)
Definition Scalar_float (v : spec_float) : Scalar := mkScalar v kFloat32.
Definition Scalar_double (v : spec_float) : Scalar := mkScalar v kFloat64.

(** [static_cast<float>(s)] and [static_cast<double>(s)]. *)
Definition float_of_Scalar (s : Scalar) : spec_float := to_float (s_value s).
Definition double_of_Scalar (s : Scalar) : spec_float := to_double (s_value s).

(** The integer literals of the source as numbers. *)
Definition num_zero : spec_float := S754_zero false.
Definition num_one : spec_float := S754_finite false 1 0.
Definition num_minus_one : spec_float := S754_finite true 1 0.
Definition num_two : spec_float := S754_finite false 1 1.

(** ** Arrays and the computational graph *)

(** Modelled from the spec: the class [Array] with its graph node
    (array.h, array_node.h and op_node.h are not in src/): "shape, dtype,
    a contiguous element buffer", "an optional back-reference to a graph
    node recording how they were produced and an optional stored gradient
    array".  The members of [OpNode] are those [Identity] uses: the name
    given to its constructor and the nodes passed to [add_node]. *)
Inductive Array := mkArray {
  shape : list Z;
  dtype : Dtype;
  data : list spec_float;
  requires_grad : bool;
  node : ArrayNode }
with ArrayNode := mkArrayNode {
  next_node : option OpNode;
  grad : option Array }
with OpNode := mkOpNode {
  name : string;
  next_nodes : list ArrayNode }.

(** [using Arrays = std::vector<Array>]. *)
Abbreviation Arrays := (list Array).

(** [std::make_shared<ArrayNode>()]. *)
Definition new_node : ArrayNode := mkArrayNode None None.

(** Modelled from the spec: [total_size()], the "totalElementCount" of the
    array: the product of the dimensions of its shape. *)
Definition total_size (a : Array) : Z := fold_right Z.mul 1 (shape a).

Definition shape_eqb (s t : list Z) : bool :=
  if decide (s = t) then true else false.

(** The invariant of the array type: the buffer holds [total_size]
    elements. *)
Definition array_wf (a : Array) : Prop :=
  Z.of_nat (length (data a)) = total_size a.

(** [eps[i]] has the shape and the dtype of [inputs[i]]: what the loop
    that checks [eps] in [CalculateNumericalGradient] decides. *)
Definition eps_matches (inputs eps : Arrays) (i : nat) : Prop :=
  forall x e, inputs !! i = Some x -> eps !! i = Some e ->
              shape x = shape e /\ dtype x = dtype e.

(** [p[i]] for a buffer [p] read through a pointer to its element type. *)
Definition load (buf : list spec_float) (i : Z) : Outcome spec_float :=
  if i <? 0 then Undefined
  else match buf !! Z.to_nat i with
       | Some x => Ok x
       | None => Undefined
       end.

(** [p[i] = x]. *)
Definition store (buf : list spec_float) (i : Z) (x : spec_float)
    : Outcome (list spec_float) :=
  if i <? 0 then Undefined
  else if (Z.to_nat i <? length buf)%nat then Ok (<[Z.to_nat i := x]> buf)
  else Undefined.

Definition with_data (a : Array) (buf : list spec_float) : Array :=
  mkArray (shape a) (dtype a) buf (requires_grad a) (node a).

Definition with_node (a : Array) (n : ArrayNode) : Array :=
  mkArray (shape a) (dtype a) (data a) (requires_grad a) n.

(** [v.at(i)]: a checked access, [std::out_of_range] outside of the
    vector. *)
Definition at_ {A : Type} (v : list A) (i : Z) : Outcome A :=
  if i <? 0 then Throw out_of_range
  else match v !! Z.to_nat i with
       | Some x => Ok x
       | None => Throw out_of_range
       end.

(** [v[i]]: an unchecked access. *)
Definition index {A : Type} (v : list A) (i : Z) : Outcome A :=
  if i <? 0 then Undefined
  else match v !! Z.to_nat i with
       | Some x => Ok x
       | None => Undefined
       end.

(** [v[i] = x]. *)
Definition assign {A : Type} (v : list A) (i : Z) (x : A) : Outcome (list A) :=
  if i <? 0 then Undefined
  else if (Z.to_nat i <? length v)%nat then Ok (<[Z.to_nat i := x]> v)
  else Undefined.

(** [internal::MemoryCopy(dst, src, n)] with [n] counted in elements. *)
Definition MemoryCopy (dst src : list spec_float) (n : Z)
    : Outcome (list spec_float) :=
  if (0 <=? n) && (n <=? Z.of_nat (length src)) && (n <=? Z.of_nat (length dst))
  then Ok (take (Z.to_nat n) src ++ drop (Z.to_nat n) dst)
  else Undefined.

(** [const int n = v.size();]: the size of a vector converted to a 32-bit
    [int]. *)
Definition int_of_size (n : nat) : Z :=
  (Z.of_nat n + 2 ^ 31) mod 2 ^ 32 - 2 ^ 31.

(** [static_cast<size_t>(n)] for an [int] [n]. *)
Definition size_of_int (n : Z) : Z := n mod 2 ^ 64.

(** ** Computations that invoke the caller's function

    The state is the trace of the invocations of [func]: the argument of
    each call, oldest first. *)

Definition Trace := list (list Array).

Definition M (A : Type) := Trace -> Outcome A * Trace.

Definition ret {A} (a : A) : M A := fun t => (Ok a, t).

Definition bind {A B} (m : M A) (k : A -> M B) : M B :=
  fun t =>
    match m t with
    | (Ok a, t') => k a t'
    | (Throw e, t') => (Throw e, t')
    | (AssertFailed, t') => (AssertFailed, t')
    | (Undefined, t') => (Undefined, t')
    end.

Definition lift {A} (o : Outcome A) : M A := fun t => (o, t).

Definition throw {A} (e : Exn) : M A := lift (Throw e).

(** [func(xs)]. *)
Definition call (func : Arrays -> Arrays) (xs : Arrays) : M Arrays :=
  fun t => (Ok (func xs), t ++ [xs]).

Notation "x <- m ;; k" := (bind m (fun x => k))
  (at level 20, m at level 99, k at level 200, only parsing).

(** [for (i = start; i < start + count; ++i) s = body(i, s);] *)
Fixpoint mfor {S : Type} (start : Z) (count : nat)
    (body : Z -> S -> M S) (s : S) : M S :=
  match count with
  | O => ret s
  | Datatypes.S n => s' <- body start s ;; mfor (start + 1) n body s'
  end.

Module gradient_internal.

Section GradientCheck.

(** The native arithmetic [VisitDtype] selects for the dtypes other than
    the two floating-point ones (dtype.h is not in src/). *)
Variable other_ops : nat -> NativeOps.

(** The contents of a buffer that was allocated and not written yet. *)
Variable indeterminate : nat -> spec_float.

(** The native type [T] of a dtype. *)
Definition native (d : Dtype) : NativeOps :=
  match d with
  | kFloat32 => float_ops
  | kFloat64 => double_ops
  | kOther k => other_ops k
  end.

(** [Scalar(v, dtype)]: the value converted to the dtype. *)
Definition Scalar_as (v : spec_float) (d : Dtype) : Scalar :=
  mkScalar (n_cast (native d) v) d.

(** A value is representable in a dtype when the conversion to the native
    type of the dtype keeps its value:
    [static_cast<double>(static_cast<T>(v)) == static_cast<double>(v)]. *)
Definition representable (d : Dtype) (v : Scalar) : Prop :=
  double_of_Scalar (Scalar_as (s_value v) d) = double_of_Scalar v.

(** Modelled from the spec: [Array::EmptyLike], [Array::ZerosLike] and
    [Array::FullLike] (array.cc is not in src/), which "produce a new
    array with given shape/dtype, uninitialized / zero-filled /
    constant-filled respectively". *)
Definition EmptyLike (a : Array) : Array :=
  mkArray (shape a) (dtype a)
          (map indeterminate (seq 0 (Z.to_nat (total_size a)))) false new_node.

Definition ZerosLike (a : Array) : Array :=
  mkArray (shape a) (dtype a)
          (replicate (Z.to_nat (total_size a)) num_zero) false new_node.

Definition FullLike (a : Array) (s : Scalar) : Array :=
  mkArray (shape a) (dtype a)
          (replicate (Z.to_nat (total_size a))
                     (n_cast (native (dtype a)) (s_value s))) false new_node.

(** [Synchronize()] waits for the CUDA device and does nothing on the CPU;
    it does not change any array. *)
Definition Synchronize : unit := tt.

(** The three buffers are read through [T*] for the native type [T] of
    [lhs.dtype()]. *)
Definition same_native (lhs rhs out : Array) : bool :=
  Dtype_eqb (dtype rhs) (dtype lhs) && Dtype_eqb (dtype out) (dtype lhs).

Definition Subtract (lhs rhs out : Array) : Outcome Array :=
  if same_native lhs rhs out then
    let T := native (dtype lhs) in
    let _ := Synchronize in
    let ldata := data lhs in
    let rdata := data rhs in
    let total_size := total_size lhs in
    odata <~ ofor 0 (Z.to_nat total_size)
               (fun i odata =>
                  l <~ load ldata i ;;
                  r <~ load rdata i ;;
                  store odata i (n_sub T l r))
               (data out) ;;
    Ok (with_data out odata)
  else Undefined.

Definition Divide (lhs rhs out : Array) : Outcome Array :=
  if same_native lhs rhs out then
    let T := native (dtype lhs) in
    let _ := Synchronize in
    let ldata := data lhs in
    let rdata := data rhs in
    let total_size := total_size lhs in
    odata <~ ofor 0 (Z.to_nat total_size)
               (fun i odata =>
                  l <~ load ldata i ;;
                  r <~ load rdata i ;;
                  store odata i (n_div T l r))
               (data out) ;;
    Ok (with_data out odata)
  else Undefined.

(** [Identity(inputs, outputs)].  The op node is created once and shared
    by the nodes of the outputs; [op_node] below is that object after
    every [add_node] of the loop. *)
Definition Identity_into (inputs outputs : Arrays) : Outcome Arrays :=
  let op_node :=
    mkOpNode "identity" (map node (List.filter requires_grad inputs)) in
  ofor 0 (length inputs)
    (fun i outputs =>
       in_ <~ index inputs i ;;
       out <~ index outputs i ;;
       let out :=
         if requires_grad in_
         then with_node out (mkArrayNode (Some op_node) None)
         else out in
       buf <~ MemoryCopy (data out) (data in_) (total_size in_) ;;
       assign outputs i (with_data out buf))
    outputs.

(** [operator-] and [operator/]. *)
Definition operator_sub (lhs rhs : Array) : Outcome Array :=
  let out := EmptyLike lhs in
  Subtract lhs rhs out.

Definition operator_div (lhs rhs : Array) : Outcome Array :=
  let out := EmptyLike lhs in
  Divide lhs rhs out.

(** Modelled from the spec: [Array::operator*] (array.cc is not in src/),
    the "elementwise product" of two arrays, computed as the sibling
    kernels [Subtract] and [Divide] compute.  What it records in the
    computational graph is left out: its result is only read by [Sum] and
    [Divide]. *)
Definition operator_mul (lhs rhs : Array) : Outcome Array :=
  let out := EmptyLike lhs in
  if same_native lhs rhs out then
    let T := native (dtype lhs) in
    odata <~ ofor 0 (Z.to_nat (total_size lhs))
               (fun i odata =>
                  l <~ load (data lhs) i ;;
                  r <~ load (data rhs) i ;;
                  store odata i (n_mul T l r))
               (data out) ;;
    Ok (with_data out odata)
  else Undefined.

(** [Identity(inputs)]. *)
Definition Identity (inputs : Arrays) : Outcome Arrays :=
  let outputs := map EmptyLike inputs in
  Identity_into inputs outputs.

(** [SumImpl<T>]. *)
Definition SumImpl (T : NativeOps) (array : Array) : Outcome spec_float :=
  let size := total_size array in
  ofor 0 (Z.to_nat size)
    (fun i s => x <~ load (data array) i ;; Ok (n_add T s x))
    num_zero.

Definition Sum (x : Array) : Outcome Scalar :=
  match dtype x with
  | kFloat32 => s <~ SumImpl float_ops x ;; Ok (Scalar_float s)
  | kFloat64 => s <~ SumImpl double_ops x ;; Ok (Scalar_double s)
  | kOther _ => AssertFailed
  end.

Definition Norm (x : Array) : Outcome Scalar :=
  xx <~ operator_mul x x ;;
  s <~ Sum xx ;;
  Ok (Scalar_as (SFsqrt 53 1024 (double_of_Scalar s)) (dtype x)).

Definition VectorDot (x y : Array) : Outcome Scalar :=
  xy <~ operator_mul x y ;;
  Sum xy.

Definition Set_ (out : Array) (flat_index : Z) (value : Scalar) : Outcome Array :=
  match dtype out with
  | kFloat32 =>
      buf <~ store (data out) flat_index (float_of_Scalar value) ;;
      Ok (with_data out buf)
  | kFloat64 =>
      buf <~ store (data out) flat_index (double_of_Scalar value) ;;
      Ok (with_data out buf)
  | kOther _ => AssertFailed
  end.

Definition Get (out : Array) (flat_index : Z) : Outcome Scalar :=
  match dtype out with
  | kFloat32 => x <~ load (data out) flat_index ;; Ok (Scalar_float x)
  | kFloat64 => x <~ load (data out) flat_index ;; Ok (Scalar_double x)
  | kOther _ => AssertFailed
  end.

(** Modelled from the spec: the copy constructor of [Array] (array.cc is
    not in src/).  "Every array duplicated", and, as the spec's design
    notes and the comment in [eval] say, "perturbed copies remain
    graph-connected to the original inputs": the node of the copy is a new
    node produced by an op node whose input is the node of the original.
    As in [Identity], the link is made for arrays that require a
    gradient. *)
Definition Array_copy (a : Array) : Array :=
  mkArray (shape a) (dtype a) (data a) (requires_grad a)
          (if requires_grad a
           then mkArrayNode (Some (mkOpNode "copy" [node a])) None
           else new_node).

(** [operator+] of two [Scalar]s.  scalar.h is not in src/ and the spec
    does not say in which type the sum of two scalars is computed, nor
    which dtype it is given: the operator is a parameter. *)
Variable Scalar_add : Scalar -> Scalar -> Scalar.

(** The closure [eval] of [CalculateNumericalGradient]; [dtype] is the
    captured [inputs[0].dtype()]. *)
Definition eval (func : Arrays -> Arrays) (inputs : Arrays) (dtype : Dtype)
    (i_in : Z) (in_flat_index : Z) (eps_scalar : Scalar)
    (multiplier : spec_float) : M Arrays :=
  let xs := map Array_copy inputs in
  x <- lift (at_ xs i_in) ;;
  cur <- lift (Get x in_flat_index) ;;
  let value :=
    Scalar_add cur
      (Scalar_as (SFmul 24 128 (float_of_Scalar eps_scalar) multiplier) dtype) in
  x' <- lift (Set_ x in_flat_index value) ;;
  let xs := <[Z.to_nat i_in := x']> xs in
  call func xs.

Definition CalculateNumericalGradient (func : Arrays -> Arrays)
    (inputs grad_outputs eps : Arrays) : M Arrays :=
  let nin := int_of_size (length inputs) in
  let nout := int_of_size (length grad_outputs) in
  if negb (Z.of_nat (length eps) =? size_of_int nin)
  then throw (XchainerError "Invalid number of eps arrays")
  else
    _ <- mfor 0 (Z.to_nat nin)
           (fun i _ =>
              x <- lift (at_ inputs i) ;;
              e <- lift (at_ eps i) ;;
              if negb (shape_eqb (shape x) (shape e))
              then throw (XchainerError "Invalid eps shape")
              else if negb (Dtype_eqb (dtype x) (dtype e))
              then throw (XchainerError "Invalid eps dtype")
              else ret tt)
           tt ;;
    x0 <- lift (index inputs 0) ;;
    let dtype := dtype x0 in
    mfor 0 (Z.to_nat nin)
      (fun i grads =>
         x <- lift (at_ inputs i) ;;
         let grad_i := ZerosLike x in
         let size := total_size grad_i in
         grad_i <- mfor 0 (Z.to_nat size)
           (fun in_flat_index grad_i =>
              e <- lift (at_ eps i) ;;
              eps_scalar <- lift (Get e in_flat_index) ;;
              ys0 <- eval func inputs dtype i in_flat_index eps_scalar
                       (to_float num_minus_one) ;;
              ys1 <- eval func inputs dtype i in_flat_index eps_scalar
                       (to_float num_one) ;;
              e_k <- lift (Get e in_flat_index) ;;
              denom <- lift (operator_mul (FullLike e e_k)
                                          (FullLike e (Scalar_as num_two dtype))) ;;
              mfor 0 (Z.to_nat nout)
                (fun j grad_i =>
                   y1 <- lift (at_ ys1 j) ;;
                   y0 <- lift (at_ ys0 j) ;;
                   dy <- lift (operator_sub y1 y0) ;;
                   d <- lift (operator_sub y1 y0) ;;
                   q <- lift (operator_div d denom) ;;
                   gout <- lift (at_ grad_outputs j) ;;
                   g <- lift (VectorDot q gout) ;;
                   cur <- lift (Get grad_i in_flat_index) ;;
                   let g_ij := Scalar_add cur g in
                   lift (Set_ grad_i in_flat_index g_ij))
                grad_i)
           grad_i ;;
         ret (grads ++ [Array_copy grad_i]))
      [].

(** ** The numerical gradient in closed form

    The algorithm in the words of the specification, to be compared with
    [CalculateNumericalGradient]. *)

(** The perturbation [eval] adds: [eps_scalar] converted to [float],
    multiplied by the [float] multiplier, converted to [dtype0]. *)
Definition nudge (dtype0 : Dtype) (eps_scalar : Scalar) (multiplier : spec_float)
    : Scalar :=
  Scalar_as (SFmul 24 128 (float_of_Scalar eps_scalar) multiplier) dtype0.

(** The array [x] with [by_] added to its element [k]. *)
Definition nudged (x : Array) (k : nat) (by_ : Scalar) : Array :=
  with_data x
    (alter (fun old => n_cast (native (dtype x))
                         (s_value (Scalar_add (mkScalar old (dtype x)) by_)))
           k (data x)).

(** The copy of the input set with [by_] added to element [k] of input
    [i]. *)
Definition perturbed (inputs : Arrays) (i k : nat) (by_ : Scalar) : Arrays :=
  alter (fun x => nudged x k by_) i (map Array_copy inputs).

(** The denominator: [2e], as an array like [eps[i]]. *)
Definition denominator (dtype0 : Dtype) (e : Array) (eps_scalar : Scalar)
    : Outcome Array :=
  operator_mul (FullLike e eps_scalar) (FullLike e (Scalar_as num_two dtype0)).

(** The central-difference quotient [(ys1[j] - ys0[j]) / denom] projected
    onto [gradOutputs[j]] by the vector dot product. *)
Definition projected_quotient (ys0 ys1 : Arrays) (denom : Array)
    (grad_outputs : Arrays) (j : Z) : Outcome Scalar :=
  y1 <~ at_ ys1 j ;;
  y0 <~ at_ ys0 j ;;
  d <~ operator_sub y1 y0 ;;
  q <~ operator_div d denom ;;
  gout <~ at_ grad_outputs j ;;
  VectorDot q gout.

(** The contribution of output [j] to element [k] of the gradient of input
    [i], for the perturbations [minus] and [plus] of the element and the
    denominator [2e]. *)
Definition contribution (func : Arrays -> Arrays) (inputs grad_outputs : Arrays)
    (dtype0 : Dtype) (i k : nat) (e : Array) (eps_scalar minus plus : Scalar)
    (j : nat) : Outcome Scalar :=
  let ys0 := func (perturbed inputs i k minus) in
  let ys1 := func (perturbed inputs i k plus) in
  denom <~ denominator dtype0 e eps_scalar ;;
  projected_quotient ys0 ys1 denom grad_outputs (Z.of_nat j).

(** The contribution for the perturbations the code makes. *)
Definition central_difference (func : Arrays -> Arrays)
    (inputs grad_outputs : Arrays) (dtype0 : Dtype) (i k : nat) (e : Array)
    (eps_scalar : Scalar) (j : nat) : Outcome Scalar :=
  contribution func inputs grad_outputs dtype0 i k e eps_scalar
    (nudge dtype0 eps_scalar (to_float num_minus_one))
    (nudge dtype0 eps_scalar (to_float num_one)) j.

(** The contribution for the perturbations [-eps[i][k]] and [+eps[i][k]]
    themselves. *)
Definition central_difference_exact (func : Arrays -> Arrays)
    (inputs grad_outputs : Arrays) (dtype0 : Dtype) (i k : nat) (e : Array)
    (eps_scalar : Scalar) (j : nat) : Outcome Scalar :=
  contribution func inputs grad_outputs dtype0 i k e eps_scalar
    (Scalar_as (SFopp (s_value eps_scalar)) dtype0)
    (Scalar_as (s_value eps_scalar) dtype0) j.

(** The sum of the contributions [gs], accumulated from zero in an
    element of dtype [d], first contribution first. *)
Definition accumulate (d : Dtype) (gs : list Scalar) : spec_float :=
  fold_left
    (fun acc g => n_cast (native d) (s_value (Scalar_add (mkScalar acc d) g)))
    gs num_zero.

(** The gradient of input [i], when [G i k j] is the contribution of output
    [j] to its element [k] and there are [nout] outputs. *)
Definition expected_grad (G : nat -> nat -> nat -> Scalar) (nout : nat)
    (i : nat) (x : Array) : Array :=
  mkArray (shape x) (dtype x)
          (imap (fun k _ => accumulate (dtype x) (map (G i k) (seq 0 nout)))
                (data x))
          false new_node.

(** The invocations of [func]: for each input, for each of its elements
    in the order of the flat index, the input set perturbed by [-e], then
    by [+e]. *)
Definition calls_for_element (inputs : Arrays) (dtype0 : Dtype) (i k : nat)
    (eps_scalar : Scalar) : Trace :=
  [perturbed inputs i k (nudge dtype0 eps_scalar (to_float num_minus_one));
   perturbed inputs i k (nudge dtype0 eps_scalar (to_float num_one))].

Definition calls_for_input (inputs : Arrays) (dtype0 : Dtype) (i : nat)
    (e : Array) : Trace :=
  concat (imap (fun k v => calls_for_element inputs dtype0 i k (mkScalar v (dtype e)))
               (data e)).

Definition all_calls (inputs eps : Arrays) (dtype0 : Dtype) : Trace :=
  concat (imap (calls_for_input inputs dtype0) eps).

(** The closeness predicate [AllClose] (numeric.h) and the differentiation
    engine [Backward] (backprop.h) are not in src/: they are parameters.
    [Backward(root)] walks the graph backward from [root] and stores
    gradients on the nodes it reaches, which the caller's inputs share;
    its result here is the gradient found on the node of an input
    afterwards, or how it failed. *)
Variable AllClose : Array -> Array -> spec_float -> spec_float -> bool.
Variable Backward : Array -> Outcome (Array -> option Array).

(** [node->set_grad(g)]. *)
Definition set_grad (n : ArrayNode) (g : Array) : ArrayNode :=
  mkArrayNode (next_node n) (Some (Array_copy g)).

(** The caller's input once [Backward] has written to its node. *)
Definition after_backward (stored : Array -> option Array) (input : Array) : Array :=
  with_node input (mkArrayNode (next_node (node input)) (stored input)).

(** How the read of a gradient that was not stored fails: the exception
    that reaches the caller is a parameter. *)
Variable missing_gradient : Exn.

(** Modelled from the spec: [Array::grad()] and the optional type it
    returns (array.h) are not in src/.  [*input.grad()] reads back the
    gradient stored on the node of the input; by the specification the
    read fails when the gradient is absent, and the failure propagates
    to the caller: no zero gradient stands in for it. *)
Definition deref_grad (input : Array) : Outcome Array :=
  match grad (node input) with
  | Some g => Ok (Array_copy g)
  | None => Throw missing_gradient
  end.

(** [std::transform(v.begin(), v.end(), std::back_inserter(out), f)]. *)
Fixpoint transform {A B : Type} (f : A -> Outcome B) (v : list A) : Outcome (list B) :=
  match v with
  | [] => Ok []
  | x :: v' => y <~ f x ;; ys <~ transform f v' ;; Ok (y :: ys)
  end.

Definition CheckBackwardComputation (func : Arrays -> Arrays)
    (inputs grad_outputs eps : Arrays) (atol rtol : spec_float) : M unit :=
  ys <- call func inputs ;;
  outputs <- lift (Identity ys) ;;
  if negb (length outputs =? length grad_outputs)%nat
  then throw (invalid_argument
                "Number of given output gradients does not match the actual number of outputs")
  else
    let nout := length outputs in
    outputs <- lift (ofor 0 nout
                       (fun i outputs =>
                          out <~ index outputs i ;;
                          g <~ index grad_outputs i ;;
                          assign outputs i (with_node out (set_grad (node out) g)))
                       outputs) ;;
    root <- lift (index outputs 0) ;;
    stored <- lift (Backward root) ;;
    let inputs := map (after_backward stored) inputs in
    backward_grads <- lift (transform deref_grad inputs) ;;
    numerical_grads <- CalculateNumericalGradient func inputs grad_outputs eps ;;
    mfor 0 (length backward_grads)
      (fun i _ =>
         b <- lift (index backward_grads i) ;;
         n <- lift (index numerical_grads i) ;;
         if negb (AllClose b n atol rtol)
         then throw (AssertionError "too large errors")
         else ret tt)
      tt.

(** The steps of [CheckBackwardComputation] that come before its loop of
    comparisons, with the two lists of gradients that the loop compares:
    the gradients of backprop and the numerical gradients. *)
Definition gradients_to_compare (func : Arrays -> Arrays)
    (inputs grad_outputs eps : Arrays) : M (Arrays * Arrays) :=
  ys <- call func inputs ;;
  outputs <- lift (Identity ys) ;;
  if negb (length outputs =? length grad_outputs)%nat
  then throw (invalid_argument
                "Number of given output gradients does not match the actual number of outputs")
  else
    let nout := length outputs in
    outputs <- lift (ofor 0 nout
                       (fun i outputs =>
                          out <~ index outputs i ;;
                          g <~ index grad_outputs i ;;
                          assign outputs i (with_node out (set_grad (node out) g)))
                       outputs) ;;
    root <- lift (index outputs 0) ;;
    stored <- lift (Backward root) ;;
    let inputs := map (after_backward stored) inputs in
    backward_grads <- lift (transform deref_grad inputs) ;;
    numerical_grads <- CalculateNumericalGradient func inputs grad_outputs eps ;;
    ret (backward_grads, numerical_grads).

End GradientCheck.

End gradient_internal.

(** ** Sample data

    Concrete arrays, functions and instances of the parameters, on which
    the properties below are exercised. *)

Module Sample.

Import gradient_internal.

(** An integer as a [double], and the quotient of two integers. *)
Definition dZ (z : Z) : spec_float :=
  match z with
  | Z0 => S754_zero false
  | Zpos p => to_double (S754_finite false p 0)
  | Zneg p => to_double (S754_finite true p 0)
  end.

Definition dQ (a b : Z) : spec_float := SFdiv 53 1024 (dZ a) (dZ b).

(** A one-dimensional array that requires no gradient. *)
Definition vec (d : Dtype) (l : list spec_float) : Array :=
  mkArray [Z.of_nat (length l)] d l false new_node.

Definition vec64 (l : list spec_float) : Array := vec kFloat64 l.
Definition vec32 (l : list spec_float) : Array := vec kFloat32 (map to_float l).

(** The other kinds are given the arithmetic of [double]; the buffers
    that were not written yet hold NaN. *)
Definition other_ops : nat -> NativeOps := fun _ => double_ops.
Definition indeterminate : nat -> spec_float := fun _ => S754_nan.

(** The sum of two scalars, computed in the native type of the left
    operand. *)
Definition Scalar_add (a b : Scalar) : Scalar :=
  let T := native other_ops (s_dtype a) in
  mkScalar (n_add T (s_value a) (n_cast T (s_value b))) (s_dtype a).

Definition identity_func : Arrays -> Arrays := fun xs => xs.

(** Modelled from the spec: [AllClose], "elementwise
    [|a-b| <= atol + rtol*|b|] reduced by logical AND", computed in
    [double]. *)
Definition AllClose (a b : Array) (atol rtol : spec_float) : bool :=
  Nat.eqb (length (data a)) (length (data b)) &&
  forallb (fun ab : spec_float * spec_float =>
             let x := to_double (fst ab) in
             let y := to_double (snd ab) in
             SFleb (SFabs (SFsub 53 1024 x y))
                   (SFadd 53 1024 (to_double atol)
                          (SFmul 53 1024 (to_double rtol) (SFabs y))))
          (zip (data a) (data b)).

(** Backprop through [identity_func] for one input and one output: the
    gradient of the input is the gradient seeded on the output. *)
Definition Backward (root : Array) : Outcome (Array -> option Array) :=
  match grad (node root) with
  | Some g => Ok (fun _ => Some g)
  | None => Throw (XchainerError "no gradient to start from")
  end.

(** One input of one element, 1.0, with eps 0.5 and output gradient 3.0,
    as [double] and as [float]. *)
Definition x64 : Array := vec64 [dZ 1].
Definition eps64 : Array := vec64 [dQ 1 2].
Definition gout64 : Array := vec64 [dZ 3].
Definition x32 : Array := vec32 [dZ 1].

(** The same input with eps 0.1, which no [float] holds. *)
Definition tenth64 : Array := vec64 [dQ 1 10].

(** An input that takes part in differentiation. *)
Definition x64_grad : Array := mkArray [1] kFloat64 [dZ 1] true new_node.

(** The contributions for [identity_func] on [x64], [eps64] and
    [gout64]. *)
Definition G64 (i k j : nat) : Scalar :=
  match central_difference other_ops indeterminate Scalar_add identity_func
          [x64] [gout64] kFloat64 i k eps64 (mkScalar (dQ 1 2) kFloat64) j with
  | Ok g => g
  | _ => mkScalar S754_nan kFloat64
  end.

(** Vectors of two elements. *)
Definition d35 : Array := vec64 [dZ 3; dZ 5].
Definition d12 : Array := vec64 [dZ 1; dZ 2].
Definition f34 : Array := vec32 [dZ 3; dZ 4].
Definition f12 : Array := vec32 [dZ 1; dZ 2].
Definition half : Scalar := Scalar_double (dQ 1 2).

(** A function that returns no output and a backprop that fails. *)
Definition no_output_func : Arrays -> Arrays := fun _ => [].
Definition Backward_fails (root : Array) : Outcome (Array -> option Array) :=
  Throw (XchainerError "backprop failed").

(** A backprop that stores the gradient 3.0 on every input. *)
Definition Backward_stores_gout (root : Array)
    : Outcome (Array -> option Array) :=
  Ok (fun _ => Some gout64).

(** A vector of three elements. *)
Definition d789 : Array := vec64 [dZ 7; dZ 8; dZ 9].

(** An eps array of another shape and one of another dtype. *)
Definition eps64_two : Array := vec64 [dQ 1 2; dQ 1 2].
Definition eps32 : Array := vec32 [dQ 1 2].

(** An instance of the failure of the read of an absent gradient. *)
Definition missing_gradient : Exn := XchainerError "gradient is not set".

Definition atol : spec_float := dQ 1 1000.
Definition rtol : spec_float := dQ 1 1000.

End Sample.

(** * Properties *)

(** ** Loops *)

Lemma ofor_inv {St : Type} (P : nat -> St -> Prop) (body : Z -> St -> Outcome St)
    (n : nat) :
  forall (start : Z) (s : St),
    P 0%nat s ->
    (forall k s, (k < n)%nat -> P k s ->
       exists s', body (start + Z.of_nat k) s = Ok s' /\ P (S k) s') ->
    exists s', ofor start n body s = Ok s' /\ P n s'.
Proof.
  revert P. induction n as [|n IH]; intros P start s H0 Hstep.
  - exists s. split; [reflexivity | assumption].
  - destruct (Hstep 0%nat s ltac:(lia) H0) as (s1 & Hb & H1).
    rewrite Z.add_0_r in Hb. simpl. rewrite Hb. simpl.
    apply (IH (fun k => P (S k)) (start + 1) s1 H1).
    intros k s2 Hk HP.
    destruct (Hstep (S k) s2 ltac:(lia) HP) as (s3 & Hb3 & H3).
    exists s3. split; [|assumption].
    rewrite <- Hb3. f_equal. lia.
Qed.

Lemma mfor_inv {St : Type} (P : nat -> St -> Trace -> Prop)
    (body : Z -> St -> M St) (n : nat) :
  forall (start : Z) (s : St) (t : Trace),
    P 0%nat s t ->
    (forall k s t, (k < n)%nat -> P k s t ->
       exists s' t', body (start + Z.of_nat k) s t = (Ok s', t') /\ P (S k) s' t') ->
    exists s' t', mfor start n body s t = (Ok s', t') /\ P n s' t'.
Proof.
  revert P. induction n as [|n IH]; intros P start s t H0 Hstep.
  - exists s, t. split; [reflexivity | assumption].
  - destruct (Hstep 0%nat s t ltac:(lia) H0) as (s1 & t1 & Hb & H1).
    rewrite Z.add_0_r in Hb. simpl. unfold bind at 1. rewrite Hb.
    apply (IH (fun k => P (S k)) (start + 1) s1 t1 H1).
    intros k s2 t2 Hk HP.
    destruct (Hstep (S k) s2 t2 ltac:(lia) HP) as (s3 & t3 & Hb3 & H3).
    exists s3, t3. split; [|assumption].
    rewrite <- Hb3. f_equal. lia.
Qed.

(** What holds of the result of a loop that returns, whatever the
    iterations that fail do. *)
Lemma mfor_inv_partial {St : Type} (P : nat -> St -> Prop)
    (body : Z -> St -> M St) (n : nat) :
  forall (start : Z) (s : St) (t : Trace) s' t',
    P 0%nat s ->
    (forall k s t s' t', (k < n)%nat -> P k s ->
       body (start + Z.of_nat k) s t = (Ok s', t') -> P (S k) s') ->
    mfor start n body s t = (Ok s', t') -> P n s'.
Proof.
  revert P. induction n as [|n IH]; intros P start s t s' t' H0 Hstep Hrun.
  - simpl in Hrun. unfold ret in Hrun. congruence.
  - simpl in Hrun. unfold bind at 1 in Hrun.
    destruct (body start s t) as [[s1| | |] t1] eqn:Hb; try discriminate.
    apply (IH (fun k => P (S k)) (start + 1) s1 t1 s' t'); [| |assumption].
    + apply (Hstep 0%nat s t s1 t1); [lia|assumption|].
      rewrite Z.add_0_r. assumption.
    + intros k s2 t2 s3 t3 Hk HP Hb3.
      apply (Hstep (S k) s2 t2 s3 t3); [lia|assumption|].
      rewrite <- Hb3. f_equal. lia.
Qed.

(** ** Buffers *)

Lemma load_nat (buf : list spec_float) (k : nat) :
  load buf (Z.of_nat k) =
  match buf !! k with Some x => Ok x | None => Undefined end.
Proof.
  unfold load. destruct (Z.ltb_spec (Z.of_nat k) 0); [lia|].
  rewrite Nat2Z.id. reflexivity.
Qed.

Lemma store_nat (buf : list spec_float) (k : nat) (x : spec_float) :
  (k < length buf)%nat -> store buf (Z.of_nat k) x = Ok (<[k := x]> buf).
Proof.
  intros Hk. unfold store. destruct (Z.ltb_spec (Z.of_nat k) 0); [lia|].
  rewrite Nat2Z.id. destruct (Nat.ltb_spec k (length buf)); [reflexivity|lia].
Qed.

Lemma Dtype_eqb_eq (a b : Dtype) : Dtype_eqb a b = true <-> a = b.
Proof.
  destruct a, b; simpl; try (split; congruence).
  rewrite Nat.eqb_eq. split; congruence.
Qed.

Lemma Dtype_eqb_refl (a : Dtype) : Dtype_eqb a a = true.
Proof. apply Dtype_eqb_eq. reflexivity. Qed.

Lemma wf_length (a : Array) :
  array_wf a -> Z.to_nat (total_size a) = length (data a).
Proof. unfold array_wf. intros <-. apply Nat2Z.id. Qed.

(** The loop of the elementwise kernels: after [n] iterations the first
    [n] elements of the output hold the results, the rest is untouched. *)
Lemma kernel_loop (op : spec_float -> spec_float -> spec_float)
    (l r o : list spec_float) (n : nat) :
  (n <= length l)%nat -> (n <= length r)%nat -> (n <= length o)%nat ->
  ofor 0 n (fun i od => x <~ load l i ;; y <~ load r i ;; store od i (op x y)) o
  = Ok (zip_with op (take n l) (take n r) ++ drop n o).
Proof.
  intros Hl Hr Ho.
  destruct (ofor_inv
    (fun k od => od = zip_with op (take k l) (take k r) ++ drop k o)
    (fun i od => x <~ load l i ;; y <~ load r i ;; store od i (op x y))
    n 0 o) as (s' & Hrun & ->); [| |exact Hrun].
  - rewrite drop_0. reflexivity.
  - intros k od Hk ->. rewrite Z.add_0_l.
    destruct (lookup_lt_is_Some_2 l k ltac:(lia)) as [x Hx].
    destruct (lookup_lt_is_Some_2 r k ltac:(lia)) as [y Hy].
    destruct (lookup_lt_is_Some_2 o k ltac:(lia)) as [z Hz].
    assert (Hlen : length (zip_with op (take k l) (take k r)) = k).
    { rewrite length_zip_with, !length_take. lia. }
    rewrite !load_nat, Hx, Hy. simpl.
    rewrite store_nat by (rewrite length_app, length_drop, Hlen; lia).
    eexists. split; [reflexivity|].
    rewrite insert_app_r_alt by lia. rewrite Hlen, Nat.sub_diag.
    rewrite (drop_S o z k Hz). simpl.
    rewrite (take_S_r l k x Hx), (take_S_r r k y Hy).
    rewrite zip_with_app by (rewrite !length_take; lia).
    simpl. rewrite <- app_assoc. reflexivity.
Qed.

Section KernelProperties.

Import gradient_internal.

Variable other_ops : nat -> NativeOps.
Variable indeterminate : nat -> spec_float.

Local Abbreviation native := (native other_ops).
Local Abbreviation EmptyLike := (EmptyLike indeterminate).
Local Abbreviation Subtract := (Subtract other_ops).
Local Abbreviation Divide := (Divide other_ops).
Local Abbreviation operator_sub := (operator_sub other_ops indeterminate).
Local Abbreviation operator_div := (operator_div other_ops indeterminate).
Local Abbreviation operator_mul := (operator_mul other_ops indeterminate).
Local Abbreviation Norm := (Norm other_ops indeterminate).
Local Abbreviation VectorDot := (VectorDot other_ops indeterminate).

Lemma EmptyLike_wf (a : Array) : array_wf a -> array_wf (EmptyLike a).
Proof.
  unfold array_wf. intros H.
  change (total_size (EmptyLike a)) with (total_size a).
  simpl. rewrite length_map, length_seq. lia.
Qed.

Lemma same_native_true (lhs rhs out : Array) :
  dtype rhs = dtype lhs -> dtype out = dtype lhs -> same_native lhs rhs out = true.
Proof.
  intros H1 H2. unfold same_native. rewrite H1, H2, !Dtype_eqb_refl. reflexivity.
Qed.

(** [Subtract] and [Divide] on operands and an output of one dtype and one
    length. *)
Lemma Subtract_spec (lhs rhs out : Array) :
  array_wf lhs -> dtype rhs = dtype lhs -> dtype out = dtype lhs ->
  length (data rhs) = length (data lhs) -> length (data out) = length (data lhs) ->
  Subtract lhs rhs out
  = Ok (with_data out (zip_with (n_sub (native (dtype lhs))) (data lhs) (data rhs))).
Proof.
  intros Hwf Hr Ho Hlr Hlo. unfold gradient_internal.Subtract.
  rewrite same_native_true by assumption. cbv zeta.
  rewrite (wf_length lhs Hwf), kernel_loop by lia. simpl.
  rewrite take_ge by lia. rewrite take_ge by lia. rewrite drop_ge by lia.
  rewrite app_nil_r. reflexivity.
Qed.

Lemma Divide_spec (lhs rhs out : Array) :
  array_wf lhs -> dtype rhs = dtype lhs -> dtype out = dtype lhs ->
  length (data rhs) = length (data lhs) -> length (data out) = length (data lhs) ->
  Divide lhs rhs out
  = Ok (with_data out (zip_with (n_div (native (dtype lhs))) (data lhs) (data rhs))).
Proof.
  intros Hwf Hr Ho Hlr Hlo. unfold gradient_internal.Divide.
  rewrite same_native_true by assumption. cbv zeta.
  rewrite (wf_length lhs Hwf), kernel_loop by lia. simpl.
  rewrite take_ge by lia. rewrite take_ge by lia. rewrite drop_ge by lia.
  rewrite app_nil_r. reflexivity.
Qed.

Lemma operator_mul_spec (lhs rhs : Array) :
  array_wf lhs -> dtype rhs = dtype lhs ->
  length (data rhs) = length (data lhs) ->
  operator_mul lhs rhs
  = Ok (with_data (EmptyLike lhs)
          (zip_with (n_mul (native (dtype lhs))) (data lhs) (data rhs))).
Proof.
  intros Hwf Hr Hlr. unfold gradient_internal.operator_mul. cbv zeta.
  rewrite same_native_true by (assumption || reflexivity).
  pose proof (EmptyLike_wf lhs Hwf) as Hwe. unfold array_wf in Hwe, Hwf.
  assert (Hle : length (data (EmptyLike lhs)) = length (data lhs)).
  { change (total_size (EmptyLike lhs)) with (total_size lhs) in Hwe. lia. }
  rewrite (wf_length lhs Hwf), kernel_loop by lia. simpl.
  rewrite take_ge by lia. rewrite take_ge by lia. rewrite drop_ge by (simpl in Hle; lia).
  rewrite app_nil_r. reflexivity.
Qed.

Lemma EmptyLike_length (a : Array) :
  array_wf a -> length (data (EmptyLike a)) = length (data a).
Proof.
  intros H. simpl. rewrite length_map, length_seq. apply wf_length. exact H.
Qed.

Lemma with_data_wf (a : Array) (l : list spec_float) :
  array_wf a -> length l = length (data a) -> array_wf (with_data (EmptyLike a) l).
Proof.
  unfold array_wf. intros H Hl.
  change (total_size (with_data (EmptyLike a) l)) with (total_size a).
  simpl. lia.
Qed.

Lemma operator_sub_spec (lhs rhs : Array) :
  array_wf lhs -> dtype rhs = dtype lhs ->
  length (data rhs) = length (data lhs) ->
  operator_sub lhs rhs
  = Ok (with_data (EmptyLike lhs)
          (zip_with (n_sub (native (dtype lhs))) (data lhs) (data rhs))).
Proof.
  intros Hwf Hd Hl. unfold gradient_internal.operator_sub. cbv zeta.
  apply Subtract_spec; try assumption; try reflexivity.
  apply EmptyLike_length. exact Hwf.
Qed.

Lemma operator_div_spec (lhs rhs : Array) :
  array_wf lhs -> dtype rhs = dtype lhs ->
  length (data rhs) = length (data lhs) ->
  operator_div lhs rhs
  = Ok (with_data (EmptyLike lhs)
          (zip_with (n_div (native (dtype lhs))) (data lhs) (data rhs))).
Proof.
  intros Hwf Hd Hl. unfold gradient_internal.operator_div. cbv zeta.
  apply Divide_spec; try assumption; try reflexivity.
  apply EmptyLike_length. exact Hwf.
Qed.

Lemma lookup_zip_with_both {A B C} (f : A -> B -> C) (l : list A) (r : list B)
    (i : nat) (x : A) (y : B) :
  l !! i = Some x -> r !! i = Some y -> zip_with f l r !! i = Some (f x y).
Proof. intros Hx Hy. rewrite lookup_zip_with, Hx. simpl. rewrite Hy. reflexivity. Qed.

(** [SumImpl<T>] folds the addition of [T] over the buffer, from zero and
    from the first element on. *)
Lemma SumImpl_spec (T : NativeOps) (a : Array) :
  array_wf a -> SumImpl T a = Ok (fold_left (n_add T) (data a) num_zero).
Proof.
  intros Hwf. unfold SumImpl. cbv zeta. rewrite (wf_length a Hwf).
  destruct (ofor_inv
    (fun k s => s = fold_left (n_add T) (take k (data a)) num_zero)
    (fun i s => x <~ load (data a) i ;; Ok (n_add T s x))
    (length (data a)) 0 num_zero) as (s' & Hrun & ->).
  - reflexivity.
  - intros k s Hk ->. rewrite Z.add_0_l, load_nat.
    destruct (lookup_lt_is_Some_2 (data a) k Hk) as [x Hx]. rewrite Hx. simpl.
    eexists. split; [reflexivity|].
    rewrite (take_S_r _ _ _ Hx), fold_left_app. reflexivity.
  - rewrite Hrun, take_ge by lia. reflexivity.
Qed.

Lemma Sum_spec (x : Array) :
  array_wf x -> supported (dtype x) = true ->
  Sum x = Ok (mkScalar (fold_left (n_add (native (dtype x))) (data x) num_zero)
                       (dtype x)).
Proof.
  intros Hwf Hs. unfold Sum.
  destruct (dtype x) eqn:Hd; try discriminate;
    rewrite SumImpl_spec by assumption; reflexivity.
Qed.

Lemma ofor_not_assert {St : Type} (body : Z -> St -> Outcome St) (n : nat) :
  (forall i s, body i s <> AssertFailed) ->
  forall start s, ofor start n body s <> AssertFailed.
Proof.
  intros Hb. induction n as [|n IH]; intros start s; simpl; [discriminate|].
  destruct (body start s) eqn:E; simpl; try discriminate.
  - apply IH.
  - intros _. exact (Hb start s E).
Qed.

Lemma load_not_assert (buf : list spec_float) (i : Z) : load buf i <> AssertFailed.
Proof.
  unfold load. destruct (i <? 0); [discriminate|].
  destruct (buf !! Z.to_nat i); discriminate.
Qed.

Lemma store_not_assert (buf : list spec_float) (i : Z) (x : spec_float) :
  store buf i x <> AssertFailed.
Proof.
  unfold store. destruct (i <? 0); [discriminate|].
  destruct (Z.to_nat i <? length buf)%nat; discriminate.
Qed.

Lemma SumImpl_not_assert (T : NativeOps) (a : Array) : SumImpl T a <> AssertFailed.
Proof.
  unfold SumImpl. apply ofor_not_assert. intros i s.
  pose proof (load_not_assert (data a) i).
  destruct (load (data a) i); simpl; congruence.
Qed.

Lemma Get_spec (a : Array) (k : nat) (x : spec_float) :
  supported (dtype a) = true -> data a !! k = Some x ->
  Get a (Z.of_nat k) = Ok (mkScalar x (dtype a)).
Proof.
  intros Hs Hx. unfold Get.
  destruct (dtype a); try discriminate; rewrite load_nat, Hx; reflexivity.
Qed.

Lemma Set_spec (a : Array) (k : nat) (v : Scalar) :
  supported (dtype a) = true -> (k < length (data a))%nat ->
  Set_ a (Z.of_nat k) v
  = Ok (with_data a (<[k := n_cast (native (dtype a)) (s_value v)]> (data a))).
Proof.
  intros Hs Hk. unfold Set_.
  destruct (dtype a); try discriminate; rewrite store_nat by assumption; reflexivity.
Qed.

End KernelProperties.

Section KernelClaims.

Import gradient_internal.

Variable other_ops : nat -> NativeOps.
Variable indeterminate : nat -> spec_float.

Local Abbreviation native := (native other_ops).
Local Abbreviation Scalar_as := (Scalar_as other_ops).
Local Abbreviation representable := (representable other_ops).
Local Abbreviation EmptyLike := (EmptyLike indeterminate).
Local Abbreviation operator_sub := (operator_sub other_ops indeterminate).
Local Abbreviation operator_div := (operator_div other_ops indeterminate).
Local Abbreviation operator_mul := (operator_mul other_ops indeterminate).
Local Abbreviation Norm := (Norm other_ops indeterminate).
Local Abbreviation VectorDot := (VectorDot other_ops indeterminate).

(** C7.  For operands [lhs] and [rhs] of one shape, one dtype and one total
    element count, [lhs - rhs] and [lhs / rhs] ([Subtract] and [Divide]
    into a new array like [lhs]) return an array of the shape and the
    dtype of the operands, with as many elements, whose element at every
    flat index [i] is [lhs[i] - rhs[i]], respectively [lhs[i] / rhs[i]],
    in the native arithmetic of the dtype. *)
Theorem Subtract_Divide_elementwise (lhs rhs : Array) :
  array_wf lhs -> array_wf rhs ->
  shape rhs = shape lhs -> dtype rhs = dtype lhs ->
  exists d q,
    operator_sub lhs rhs = Ok d /\ operator_div lhs rhs = Ok q /\
    (shape d = shape lhs /\ dtype d = dtype lhs /\ array_wf d) /\
    (shape q = shape lhs /\ dtype q = dtype lhs /\ array_wf q) /\
    forall (i : nat) (l r : spec_float),
      data lhs !! i = Some l -> data rhs !! i = Some r ->
      data d !! i = Some (n_sub (native (dtype lhs)) l r) /\
      data q !! i = Some (n_div (native (dtype lhs)) l r).
Proof.
  intros Hl Hr Hs Hd.
  assert (Hlen : length (data rhs) = length (data lhs)).
  { unfold array_wf, total_size in *. rewrite Hs in Hr. lia. }
  pose proof (EmptyLike_wf indeterminate lhs Hl) as He.
  assert (Hlo : length (data (EmptyLike lhs)) = length (data lhs)).
  { unfold array_wf in He, Hl.
    change (total_size (EmptyLike lhs)) with (total_size lhs) in He. lia. }
  unfold gradient_internal.operator_sub, gradient_internal.operator_div. cbv zeta.
  rewrite Subtract_spec, Divide_spec by (assumption || reflexivity).
  do 2 eexists. split; [reflexivity|]. split; [reflexivity|].
  assert (Hwf : forall l', length l' = length (data lhs) ->
                           array_wf (with_data (EmptyLike lhs) l')).
  { intros l' Hl'. unfold array_wf in *. simpl.
    change (total_size (with_data (EmptyLike lhs) l')) with (total_size lhs). lia. }
  split; [|split].
  - repeat split. apply Hwf. rewrite length_zip_with. lia.
  - repeat split. apply Hwf. rewrite length_zip_with. lia.
  - intros i l r Hli Hri. simpl. split; apply lookup_zip_with_both; assumption.
Qed.

(** C8.  For an array of a supported dtype, a flat index [idx] in
    [[0, total_size)] and a value [v] representable in the dtype of the
    array, [Set(array, idx, v)] succeeds and [Get(array, idx)] then
    returns [v]: a scalar of the dtype of the array that is equal to [v]
    as a [double], and that is [v] itself when [v] is a scalar of that
    dtype holding a value of its native type. *)
Theorem Get_Set_roundtrip (a : Array) (idx : Z) (v : Scalar) :
  supported (dtype a) = true -> array_wf a ->
  0 <= idx < total_size a ->
  representable (dtype a) v ->
  exists a' r,
    Set_ a idx v = Ok a' /\ Get a' idx = Ok r /\
    s_dtype r = dtype a /\
    double_of_Scalar r = double_of_Scalar v /\
    (s_dtype v = dtype a ->
     n_cast (native (dtype a)) (s_value v) = s_value v -> r = v).
Proof.
  intros Hs Hwf Hidx Hrep.
  assert (Hk : (Z.to_nat idx < length (data a))%nat).
  { unfold array_wf in Hwf. lia. }
  rewrite <- (Z2Nat.id idx) by lia.
  do 2 eexists. split; [apply (Set_spec other_ops); assumption|].
  split; [apply Get_spec; [exact Hs | apply list_lookup_insert_eq; exact Hk]|].
  split; [reflexivity|]. split; [exact Hrep|].
  intros Hdv Hcast. simpl. rewrite Hcast, <- Hdv. destruct v; reflexivity.
Qed.

(** C9.  [Get], [Set] and [Sum] fail with the assertion exactly on the
    arrays whose dtype is outside of the supported set (32-bit and 64-bit
    float): on every array of another dtype the assertion fails, and on an
    array of a supported dtype the branch of the assertion is not
    reached, whatever the index and the buffer. *)
Theorem unsupported_dtype_asserts (a : Array) (i : Z) (v : Scalar) :
  (supported (dtype a) = false <-> Get a i = AssertFailed) /\
  (supported (dtype a) = false <-> Set_ a i v = AssertFailed) /\
  (supported (dtype a) = false <-> Sum a = AssertFailed).
Proof.
  unfold Get, Set_, Sum.
  pose proof (load_not_assert (data a) i) as Hl.
  pose proof (SumImpl_not_assert float_ops a) as Hf.
  pose proof (SumImpl_not_assert double_ops a) as Hg.
  destruct (dtype a); simpl.
  - pose proof (store_not_assert (data a) i (float_of_Scalar v)) as Hst.
    repeat split; try discriminate; intros H; exfalso.
    + destruct (load (data a) i); simpl in H; congruence.
    + destruct (store (data a) i (float_of_Scalar v)); simpl in H; congruence.
    + destruct (SumImpl float_ops a); simpl in H; congruence.
  - pose proof (store_not_assert (data a) i (double_of_Scalar v)) as Hst.
    repeat split; try discriminate; intros H; exfalso.
    + destruct (load (data a) i); simpl in H; congruence.
    + destruct (store (data a) i (double_of_Scalar v)); simpl in H; congruence.
    + destruct (SumImpl double_ops a); simpl in H; congruence.
  - repeat split; reflexivity.
Qed.

(** C6.  For an array [x] of a supported dtype, [Norm(x)] is the square
    root, computed in [double], of [Sum(x * x)] converted to [double], and
    it is returned as a scalar of the dtype of [x]; [VectorDot(x, y)] is
    [Sum] of the elementwise product of [x] and [y]: the products of the
    elements at the same index, added from zero in the native arithmetic
    of the dtype. *)
Theorem Norm_VectorDot_spec (x y : Array) :
  supported (dtype x) = true -> array_wf x -> array_wf y ->
  shape y = shape x -> dtype y = dtype x ->
  let T := native (dtype x) in
  let sum_of (l : list spec_float) := fold_left (n_add T) l num_zero in
  (exists xx s,
     operator_mul x x = Ok xx /\ Sum xx = Ok s /\
     s = mkScalar (sum_of (zip_with (n_mul T) (data x) (data x))) (dtype x) /\
     Norm x = Ok (Scalar_as (SFsqrt 53 1024 (double_of_Scalar s)) (dtype x)) /\
     (forall r, Norm x = Ok r -> s_dtype r = dtype x)) /\
  (exists xy,
     operator_mul x y = Ok xy /\ VectorDot x y = Sum xy /\
     (forall (i : nat) a b, data x !! i = Some a -> data y !! i = Some b ->
                            data xy !! i = Some (n_mul T a b)) /\
     VectorDot x y
     = Ok (mkScalar (sum_of (zip_with (n_mul T) (data x) (data y))) (dtype x))).
Proof.
  intros Hs Hx Hy Hsh Hd T sum_of.
  assert (Hlen : length (data y) = length (data x)).
  { unfold array_wf, total_size in *. rewrite Hsh in Hy. lia. }
  assert (Hwf : forall l', length l' = length (data x) ->
                           array_wf (with_data (EmptyLike x) l')).
  { intros l' Hl'. unfold array_wf in *. simpl.
    change (total_size (with_data (EmptyLike x) l')) with (total_size x). lia. }
  assert (HS : forall l', length l' = length (data x) ->
             Sum (with_data (EmptyLike x) l') = Ok (mkScalar (sum_of l') (dtype x))).
  { intros l' Hl'. rewrite (Sum_spec other_ops) by (auto; exact Hs). reflexivity. }
  split.
  - unfold gradient_internal.Norm.
    rewrite operator_mul_spec by (assumption || reflexivity). simpl.
    rewrite HS by (rewrite length_zip_with; lia). simpl.
    do 2 eexists. split; [reflexivity|]. split; [apply HS; rewrite length_zip_with; lia|].
    split; [reflexivity|]. split; [reflexivity|].
    intros r Hr. injection Hr as <-. reflexivity.
  - unfold gradient_internal.VectorDot.
    rewrite operator_mul_spec by assumption. simpl.
    eexists. split; [reflexivity|]. split; [reflexivity|]. split.
    + intros i a b Ha Hb. simpl. apply lookup_zip_with_both; assumption.
    + apply HS. rewrite length_zip_with. lia.
Qed.

End KernelClaims.

(** ** Multiplication by the [float] multipliers

    The multipliers of [eval] are [-1.0f] and [+1.0f]: the product of a
    [float] with one of them is that [float], or its opposite. *)

Lemma digits2_shift23 (m : positive) :
  Zpos (digits2_pos (m * 8388608)) = Zpos (digits2_pos m) + 23.
Proof.
  rewrite Pos.mul_comm. simpl. rewrite !Pos2Z.inj_succ, Pos.mul_1_l. lia.
Qed.

Lemma shr_exact_23 (m : positive) :
  SpecFloat.iter_pos shr_1 23 (Build_shr_record (Z.pos (8388608 * m)) false false)
  = Build_shr_record (Z.pos m) false false.
Proof. reflexivity. Qed.

Lemma SFmul_float_unit (x : spec_float) (sign : bool) :
  valid_binary 24 128 x = true ->
  SFmul 24 128 x (S754_finite sign 8388608 (-23))
  = if sign then SFopp x else x.
Proof.
  destruct x as [s|s| |s m e]; intros Hv.
  - destruct s, sign; reflexivity.
  - destruct s, sign; reflexivity.
  - destruct sign; reflexivity.
  - simpl in Hv. unfold bounded, canonical_mantissa in Hv.
    apply andb_true_iff in Hv as [Hc Hb].
    apply Z.eqb_eq in Hc. apply Z.leb_le in Hb.
    cbn [SFmul].
    unfold binary_round_aux, shr_fexp.
    unfold Zdigits2 at 1. rewrite digits2_shift23.
    replace (Z.pos (digits2_pos m) + 23 + (e + -23))
      with (Z.pos (digits2_pos m) + e) by lia.
    rewrite Hc. replace (e - (e + -23)) with 23 by lia.
    unfold shr at 1. rewrite Pos.mul_comm.
    change (shr_record_of_loc (Z.pos (8388608 * m)) loc_Exact)
      with (Build_shr_record (Z.pos (8388608 * m)) false false).
    rewrite (shr_exact_23 m).
    replace (e + -23 + 23) with e by lia.
    cbn [shr_m loc_of_shr_record round_nearest_even Zdigits2].
    rewrite Hc, Z.sub_diag. cbn [shr shr_record_of_loc shr_m].
    destruct (Z.leb_spec e (128 - 24)); [|lia].
    destruct s, sign; reflexivity.
Qed.

Lemma SFmul_float_one (x : spec_float) :
  valid_binary 24 128 x = true -> SFmul 24 128 x (to_float num_one) = x.
Proof. apply (SFmul_float_unit x false). Qed.

Lemma SFmul_float_minus_one (x : spec_float) :
  valid_binary 24 128 x = true ->
  SFmul 24 128 x (to_float num_minus_one) = SFopp x.
Proof. apply (SFmul_float_unit x true). Qed.

(** ** The numerical gradient *)

Lemma bind_lift_eq {A B} (o : Outcome A) (a : A) (k : A -> M B) (t : Trace) :
  o = Ok a -> bind (lift o) k t = k a t.
Proof. intros ->. reflexivity. Qed.

Lemma obind_Ok {A B} (m : Outcome A) (k : A -> Outcome B) (b : B) :
  obind m k = Ok b -> exists a, m = Ok a /\ k a = Ok b.
Proof. destruct m; simpl; try discriminate. intros H. eauto. Qed.

Lemma at_nat {A} (v : list A) (i : nat) (x : A) :
  v !! i = Some x -> at_ v (Z.of_nat i) = Ok x.
Proof.
  intros H. unfold at_. destruct (Z.ltb_spec (Z.of_nat i) 0); [lia|].
  rewrite Nat2Z.id, H. reflexivity.
Qed.

Lemma index_nat {A} (v : list A) (i : nat) (x : A) :
  v !! i = Some x -> index v (Z.of_nat i) = Ok x.
Proof.
  intros H. unfold index. destruct (Z.ltb_spec (Z.of_nat i) 0); [lia|].
  rewrite Nat2Z.id, H. reflexivity.
Qed.

Lemma int_of_size_fits (n : nat) :
  Z.of_nat n < 2 ^ 31 -> int_of_size n = Z.of_nat n.
Proof.
  intros H. unfold int_of_size.
  rewrite Z.mod_small by lia. lia.
Qed.

Lemma insert_as_alter {A} (f : A -> A) (l : list A) (i : nat) (x : A) :
  l !! i = Some x -> <[i := f x]> l = alter f i l.
Proof.
  intros H. rewrite list_insert_alter. apply list_alter_ext; [|reflexivity].
  intros y Hy. congruence.
Qed.

Section NumericalGradient.

Import gradient_internal.

Variable other_ops : nat -> NativeOps.
Variable indeterminate : nat -> spec_float.
Variable Scalar_add : Scalar -> Scalar -> Scalar.

Local Abbreviation native := (native other_ops).
Local Abbreviation Scalar_as := (Scalar_as other_ops).
Local Abbreviation FullLike := (FullLike other_ops).
Local Abbreviation operator_sub := (operator_sub other_ops indeterminate).
Local Abbreviation operator_div := (operator_div other_ops indeterminate).
Local Abbreviation operator_mul := (operator_mul other_ops indeterminate).
Local Abbreviation VectorDot := (VectorDot other_ops indeterminate).
Local Abbreviation nudge := (nudge other_ops).
Local Abbreviation nudged := (nudged other_ops Scalar_add).
Local Abbreviation perturbed := (perturbed other_ops Scalar_add).
Local Abbreviation denominator := (denominator other_ops indeterminate).
Local Abbreviation projected_quotient := (projected_quotient other_ops indeterminate).
Local Abbreviation central_difference :=
  (central_difference other_ops indeterminate Scalar_add).
Local Abbreviation accumulate := (accumulate other_ops Scalar_add).
Local Abbreviation expected_grad := (expected_grad other_ops Scalar_add).
Local Abbreviation calls_for_element := (calls_for_element other_ops Scalar_add).
Local Abbreviation calls_for_input := (calls_for_input other_ops Scalar_add).
Local Abbreviation all_calls := (all_calls other_ops Scalar_add).
Local Abbreviation eval := (eval other_ops Scalar_add).
Local Abbreviation CalculateNumericalGradient :=
  (CalculateNumericalGradient other_ops indeterminate Scalar_add).

(** For outputs, a denominator and an output gradient of one supported
    dtype and one number of elements, as for an elementwise function, the
    projected quotient is defined: it is the sum of the elementwise
    products with the output gradient of the elementwise quotients of the
    differences. *)
Lemma projected_quotient_elementwise (ys0 ys1 : Arrays) (denom : Array)
    (grad_outputs : Arrays) (j : nat) (y0 y1 gout : Array) :
  ys1 !! j = Some y1 -> ys0 !! j = Some y0 -> grad_outputs !! j = Some gout ->
  array_wf y1 -> supported (dtype y1) = true ->
  dtype y0 = dtype y1 -> length (data y0) = length (data y1) ->
  dtype denom = dtype y1 -> length (data denom) = length (data y1) ->
  dtype gout = dtype y1 -> length (data gout) = length (data y1) ->
  let T := native (dtype y1) in
  projected_quotient ys0 ys1 denom grad_outputs (Z.of_nat j)
  = Ok (mkScalar
          (fold_left (n_add T)
             (zip_with (n_mul T)
                (zip_with (n_div T)
                   (zip_with (n_sub T) (data y1) (data y0)) (data denom))
                (data gout))
             num_zero)
          (dtype y1)).
Proof.
  intros H1 H0 Hg Hwf Hs Hd0 Hl0 Hdd Hld Hdg Hlg T.
  unfold gradient_internal.projected_quotient.
  rewrite (at_nat _ _ _ H1), (at_nat _ _ _ H0). simpl.
  rewrite (operator_sub_spec other_ops indeterminate) by assumption. simpl.
  set (d := with_data _ (zip_with (n_sub _) _ _)).
  assert (Hwd : array_wf d).
  { apply with_data_wf; [exact Hwf|]. rewrite length_zip_with. lia. }
  assert (Hlen_d : length (data d) = length (data y1)).
  { subst d. simpl. rewrite length_zip_with. lia. }
  assert (Hdt_d : dtype d = dtype y1) by reflexivity.
  rewrite (operator_div_spec other_ops indeterminate d denom Hwd)
    by (rewrite ?Hdt_d, ?Hlen_d; assumption).
  rewrite Hdt_d. simpl.
  set (q := with_data _ (zip_with (n_div _) _ _)).
  assert (Hwq : array_wf q).
  { apply with_data_wf; [exact Hwd|]. simpl. rewrite !length_zip_with. lia. }
  assert (Hlen_q : length (data q) = length (data y1)).
  { subst q. simpl. rewrite !length_zip_with. lia. }
  rewrite (at_nat _ _ _ Hg). simpl.
  unfold gradient_internal.VectorDot.
  assert (Hdt_q : dtype q = dtype y1) by reflexivity.
  rewrite (operator_mul_spec other_ops indeterminate q gout Hwq)
    by (rewrite ?Hdt_q, ?Hlen_q; assumption).
  rewrite Hdt_q. simpl.
  rewrite (Sum_spec other_ops).
  - reflexivity.
  - apply with_data_wf; [exact Hwq|]. simpl. rewrite !length_zip_with. lia.
  - exact Hs.
Qed.

(** [eval] gives [func] the copy of the inputs with the perturbation added
    to the one element, and records the invocation. *)
Lemma eval_spec (func : Arrays -> Arrays) (inputs : Arrays) (dtype0 : Dtype)
    (i k : nat) (x : Array) (old : spec_float) (eps_scalar : Scalar)
    (m : spec_float) (t : Trace) :
  inputs !! i = Some x -> supported (dtype x) = true -> data x !! k = Some old ->
  eval func inputs dtype0 (Z.of_nat i) (Z.of_nat k) eps_scalar m t
  = (Ok (func (perturbed inputs i k (nudge dtype0 eps_scalar m))),
     t ++ [perturbed inputs i k (nudge dtype0 eps_scalar m)]).
Proof.
  intros Hi Hs Hk. unfold gradient_internal.eval.
  assert (Hc : map Array_copy inputs !! i = Some (Array_copy x)).
  { rewrite list_lookup_fmap, Hi. reflexivity. }
  rewrite (bind_lift_eq _ _ _ _ (at_nat _ _ _ Hc)).
  rewrite (bind_lift_eq _ _ _ _ (Get_spec (Array_copy x) k old Hs Hk)).
  rewrite (bind_lift_eq _ _ _ _
             (Set_spec other_ops (Array_copy x) k _ Hs (lookup_lt_Some _ _ _ Hk))).
  rewrite Nat2Z.id. unfold call.
  assert (Heq : <[i := with_data (Array_copy x)
                         (<[k := n_cast (native (dtype (Array_copy x)))
                                   (s_value (Scalar_add (mkScalar old (dtype x))
                                      (nudge dtype0 eps_scalar m)))]>
                            (data (Array_copy x)))]> (map Array_copy inputs)
                = perturbed inputs i k (nudge dtype0 eps_scalar m)).
  { unfold gradient_internal.perturbed.
    rewrite <- (insert_as_alter _ _ _ _ Hc). f_equal.
    unfold gradient_internal.nudged. f_equal.
    apply (insert_as_alter
             (fun old => n_cast (native (dtype x))
                (s_value (Scalar_add (mkScalar old (dtype x))
                                     (nudge dtype0 eps_scalar m))))).
    exact Hk. }
  rewrite <- Heq. reflexivity.
Qed.

(** The loop over the outputs adds their contributions to the one element
    of the gradient, and leaves the other elements and the trace as they
    are. *)
Lemma output_loop (ys0 ys1 : Arrays) (denom : Array) (grad_outputs : Arrays)
    (G : nat -> Scalar) (n : nat) (sh : list Z) (d : Dtype) (k : nat)
    (pre post : list spec_float) (t : Trace) :
  supported d = true -> k = length pre ->
  (forall j, (j < n)%nat ->
     projected_quotient ys0 ys1 denom grad_outputs (Z.of_nat j) = Ok (G j)) ->
  mfor 0 n
    (fun j grad_i =>
       y1 <- lift (at_ ys1 j) ;;
       y0 <- lift (at_ ys0 j) ;;
       dy <- lift (operator_sub y1 y0) ;;
       d <- lift (operator_sub y1 y0) ;;
       q <- lift (operator_div d denom) ;;
       gout <- lift (at_ grad_outputs j) ;;
       g <- lift (VectorDot q gout) ;;
       cur <- lift (Get grad_i (Z.of_nat k)) ;;
       lift (Set_ grad_i (Z.of_nat k) (Scalar_add cur g)))
    (mkArray sh d (pre ++ num_zero :: post) false new_node) t
  = (Ok (mkArray sh d (pre ++ accumulate d (map G (seq 0 n)) :: post) false new_node),
     t).
Proof.
  intros Hs -> HG.
  match goal with |- mfor 0 n ?body ?g0 t = _ =>
    destruct (mfor_inv
      (fun j g t' =>
         t' = t /\
         g = mkArray sh d (pre ++ accumulate d (map G (seq 0 j)) :: post)
                     false new_node)
      body n 0 g0 t) as (g' & t' & Hrun & -> & ->)
  end.
  - split; reflexivity.
  - intros j g t' Hj [-> ->]. rewrite Z.add_0_l.
    pose proof (HG j Hj) as Hq. unfold gradient_internal.projected_quotient in Hq.
    apply obind_Ok in Hq as (y1 & Hy1 & Hq).
    apply obind_Ok in Hq as (y0 & Hy0 & Hq).
    apply obind_Ok in Hq as (dd & Hd & Hq).
    apply obind_Ok in Hq as (q & Hqd & Hq).
    apply obind_Ok in Hq as (gout & Hgo & Hq).
    rewrite (bind_lift_eq _ _ _ _ Hy1), (bind_lift_eq _ _ _ _ Hy0).
    rewrite (bind_lift_eq _ _ _ _ Hd), (bind_lift_eq _ _ _ _ Hd).
    rewrite (bind_lift_eq _ _ _ _ Hqd), (bind_lift_eq _ _ _ _ Hgo).
    rewrite (bind_lift_eq _ _ _ _ Hq).
    set (acc := accumulate d (map G (seq 0 j))).
    assert (Hlk : (pre ++ acc :: post) !! length pre = Some acc).
    { rewrite lookup_app_r by lia. rewrite Nat.sub_diag. reflexivity. }
    rewrite (bind_lift_eq _ _ _ _
               (Get_spec (mkArray sh d (pre ++ acc :: post) false new_node)
                         (length pre) acc Hs Hlk)).
    unfold lift.
    rewrite (Set_spec other_ops)
      by (simpl; first [exact Hs | rewrite length_app; simpl; lia]).
    do 2 eexists. split; [reflexivity|]. split; [reflexivity|].
    assert (Hacc : accumulate d (map G (seq 0 (S j)))
                   = n_cast (native d) (s_value (Scalar_add (mkScalar acc d) (G j)))).
    { subst acc. rewrite seq_S, map_app. unfold gradient_internal.accumulate.
      rewrite fold_left_app. reflexivity. }
    rewrite Hacc. unfold with_data. cbn [shape dtype data requires_grad node].
    rewrite insert_app_r_alt by lia. rewrite Nat.sub_diag. reflexivity.
  - exact Hrun.
Qed.

Lemma bind_eq {A B} (m : M A) (a : A) (k : A -> M B) (t t' : Trace) :
  m t = (Ok a, t') -> bind m k t = k a t'.
Proof. intros H. unfold bind. rewrite H. reflexivity. Qed.

Lemma bind_throw {A B} (m : M A) (e : Exn) (k : A -> M B) (t t' : Trace) :
  m t = (Throw e, t') -> bind m k t = (Throw e, t').
Proof. intros H. unfold bind. rewrite H. reflexivity. Qed.

Lemma FullLike_wf (e : Array) (s : Scalar) : array_wf e -> array_wf (FullLike e s).
Proof.
  unfold array_wf. intros H.
  change (total_size (FullLike e s)) with (total_size e).
  simpl. rewrite length_replicate. lia.
Qed.

Lemma denominator_Ok (dtype0 : Dtype) (e : Array) (s : Scalar) :
  array_wf e -> exists dn, denominator dtype0 e s = Ok dn.
Proof.
  intros H. unfold gradient_internal.denominator.
  rewrite operator_mul_spec.
  - eexists. reflexivity.
  - apply FullLike_wf. exact H.
  - reflexivity.
  - simpl. rewrite !length_replicate. reflexivity.
Qed.

(** The loop over the elements of input [i] fills the gradient of the
    input, element by element, and invokes [func] twice for each. *)
Lemma element_loop (func : Arrays -> Arrays) (inputs grad_outputs eps : Arrays)
    (dtype0 : Dtype) (G : nat -> nat -> Scalar) (nout i : nat) (x e : Array)
    (t : Trace) :
  inputs !! i = Some x -> eps !! i = Some e ->
  supported (dtype x) = true -> array_wf x -> array_wf e ->
  shape x = shape e -> dtype x = dtype e ->
  (forall k v j, data e !! k = Some v -> (j < nout)%nat ->
     central_difference func inputs grad_outputs dtype0 i k e
                        (mkScalar v (dtype e)) j = Ok (G k j)) ->
  mfor 0 (length (data x))
    (fun in_flat_index grad_i =>
       e <- lift (at_ eps (Z.of_nat i)) ;;
       eps_scalar <- lift (Get e in_flat_index) ;;
       ys0 <- eval func inputs dtype0 (Z.of_nat i) in_flat_index eps_scalar
                (to_float num_minus_one) ;;
       ys1 <- eval func inputs dtype0 (Z.of_nat i) in_flat_index eps_scalar
                (to_float num_one) ;;
       e_k <- lift (Get e in_flat_index) ;;
       denom <- lift (operator_mul (FullLike e e_k)
                                   (FullLike e (Scalar_as num_two dtype0))) ;;
       mfor 0 nout
         (fun j grad_i =>
            y1 <- lift (at_ ys1 j) ;;
            y0 <- lift (at_ ys0 j) ;;
            dy <- lift (operator_sub y1 y0) ;;
            d <- lift (operator_sub y1 y0) ;;
            q <- lift (operator_div d denom) ;;
            gout <- lift (at_ grad_outputs j) ;;
            g <- lift (VectorDot q gout) ;;
            cur <- lift (Get grad_i in_flat_index) ;;
            lift (Set_ grad_i in_flat_index (Scalar_add cur g)))
         grad_i)
    (ZerosLike x) t
  = (Ok (mkArray (shape x) (dtype x)
           (imap (fun k _ => accumulate (dtype x) (map (G k) (seq 0 nout))) (data x))
           false new_node),
     t ++ calls_for_input inputs dtype0 i e).
Proof.
  intros Hi He Hs Hwx Hwe Hsh Hdt HG.
  assert (Hlen : length (data e) = length (data x)).
  { unfold array_wf, total_size in *. rewrite Hsh in Hwx. lia. }
  assert (Hse : supported (dtype e) = true) by (rewrite <- Hdt; exact Hs).
  set (F := fun (k : nat) (_ : spec_float) =>
              accumulate (dtype x) (map (G k) (seq 0 nout))).
  set (C := fun (k : nat) (v : spec_float) =>
              calls_for_element inputs dtype0 i k (mkScalar v (dtype e))).
  set (n := length (data x)).
  match goal with |- mfor 0 n ?body ?g0 t = _ =>
    destruct (mfor_inv
      (fun k g t' =>
         g = mkArray (shape x) (dtype x)
               (imap F (take k (data x)) ++ replicate (n - k) num_zero)
               false new_node /\
         t' = t ++ concat (imap C (take k (data e))))
      body n 0 g0 t) as (g' & t' & Hrun & -> & ->)
  end.
  - split.
    + unfold ZerosLike. rewrite (wf_length x Hwx). simpl. rewrite Nat.sub_0_r.
      reflexivity.
    + simpl. rewrite app_nil_r. reflexivity.
  - intros k g t' Hk [-> ->]. rewrite Z.add_0_l.
    destruct (lookup_lt_is_Some_2 (data x) k Hk) as [old Hold].
    destruct (lookup_lt_is_Some_2 (data e) k ltac:(lia)) as [v Hv].
    destruct (denominator_Ok dtype0 e (mkScalar v (dtype e)) Hwe) as [dn Hdn].
    rewrite (bind_lift_eq _ _ _ _ (at_nat _ _ _ He)).
    rewrite (bind_lift_eq _ _ _ _ (Get_spec e k v Hse Hv)).
    rewrite (bind_eq _ _ _ _ _ (eval_spec func inputs dtype0 i k x old _ _ _ Hi Hs Hold)).
    rewrite (bind_eq _ _ _ _ _ (eval_spec func inputs dtype0 i k x old _ _ _ Hi Hs Hold)).
    rewrite (bind_lift_eq _ _ _ _ (Get_spec e k v Hse Hv)).
    rewrite (bind_lift_eq _ _ _ _ Hdn).
    assert (Hrep : replicate (n - k) num_zero
                   = num_zero :: replicate (n - S k) num_zero).
    { replace (n - k)%nat with (S (n - S k)) by lia. reflexivity. }
    rewrite Hrep.
    rewrite (output_loop _ _ _ _ (G k) nout (shape x) (dtype x) k).
    + do 2 eexists. split; [reflexivity|]. split.
      * f_equal. rewrite (take_S_r _ _ _ Hold), imap_app. simpl.
        rewrite length_take_le by lia. rewrite Nat.add_0_r.
        rewrite <- app_assoc. reflexivity.
      * rewrite (take_S_r _ _ _ Hv), imap_app, concat_app. simpl.
        rewrite length_take_le by lia. rewrite Nat.add_0_r.
        rewrite <- !app_assoc. reflexivity.
    + exact Hs.
    + rewrite length_imap, length_take_le by lia. reflexivity.
    + intros j Hj. pose proof (HG k v j Hv Hj) as Hc.
      unfold gradient_internal.central_difference,
        gradient_internal.contribution in Hc.
      cbv zeta in Hc. rewrite Hdn in Hc. exact Hc.
  - rewrite Hrun. subst n. rewrite take_ge by lia. rewrite take_ge by lia.
    rewrite Nat.sub_diag. simpl. rewrite app_nil_r. reflexivity.
Qed.

Lemma validation_loop (inputs eps : Arrays) (t : Trace) (n : nat) :
  forall start : nat,
    (start + n <= length inputs)%nat -> length eps = length inputs ->
    (mfor (Z.of_nat start) n
       (fun i _ =>
          x <- lift (at_ inputs i) ;;
          e <- lift (at_ eps i) ;;
          if negb (shape_eqb (shape x) (shape e))
          then throw (XchainerError "Invalid eps shape")
          else if negb (Dtype_eqb (dtype x) (dtype e))
          then throw (XchainerError "Invalid eps dtype")
          else ret tt)
       tt t = (Ok tt, t) /\
     forall i, (start <= i < start + n)%nat -> eps_matches inputs eps i) \/
    (exists msg,
       mfor (Z.of_nat start) n
         (fun i _ =>
            x <- lift (at_ inputs i) ;;
            e <- lift (at_ eps i) ;;
            if negb (shape_eqb (shape x) (shape e))
            then throw (XchainerError "Invalid eps shape")
            else if negb (Dtype_eqb (dtype x) (dtype e))
            then throw (XchainerError "Invalid eps dtype")
            else ret tt)
         tt t = (Throw (XchainerError msg), t) /\
       (msg = "Invalid eps shape" \/ msg = "Invalid eps dtype")%string /\
       exists i, (start <= i < start + n)%nat /\ ~ eps_matches inputs eps i).
Proof.
  match goal with |- forall start, _ -> _ -> (mfor _ _ ?b _ _ = _ /\ _) \/ _ =>
    set (body := b) end.
  induction n as [|n IH]; intros start Hn Hlen.
  - left. split; [reflexivity|]. intros i Hi. lia.
  - destruct (lookup_lt_is_Some_2 inputs start ltac:(lia)) as [x Hx].
    destruct (lookup_lt_is_Some_2 eps start ltac:(lia)) as [e He].
    change (mfor (Z.of_nat start) (S n) body tt t)
      with (bind (body (Z.of_nat start) tt)
                 (fun s' => mfor (Z.of_nat start + 1) n body s') t).
    assert (Hb : body (Z.of_nat start) tt t
                 = (if negb (shape_eqb (shape x) (shape e))
                    then throw (XchainerError "Invalid eps shape")
                    else if negb (Dtype_eqb (dtype x) (dtype e))
                    then throw (XchainerError "Invalid eps dtype")
                    else ret tt) t).
    { subst body. cbv beta.
      rewrite (bind_lift_eq _ _ _ _ (at_nat _ _ _ Hx)).
      rewrite (bind_lift_eq _ _ _ _ (at_nat _ _ _ He)). reflexivity. }
    unfold shape_eqb in Hb.
    destruct (decide (shape x = shape e)) as [Hsh|Hsh]; cbn [negb] in Hb.
    + destruct (Dtype_eqb (dtype x) (dtype e)) eqn:Hdt; cbn [negb] in Hb.
      * apply Dtype_eqb_eq in Hdt. rewrite (bind_eq _ _ _ _ _ Hb).
        replace (Z.of_nat start + 1) with (Z.of_nat (S start)) by lia.
        destruct (IH (S start) ltac:(lia) Hlen)
          as [[Hrun Hall]|(msg & Hrun & Hmsg & i & Hi & Hno)].
        -- left. split; [exact Hrun|]. intros i Hi.
           destruct (decide (i = start)) as [->|Hne].
           ++ intros x' e' Hx' He'. split; congruence.
           ++ apply Hall. lia.
        -- right. exists msg. split; [exact Hrun|]. split; [exact Hmsg|].
           exists i. split; [lia|exact Hno].
      * right. eexists. split; [apply bind_throw; exact Hb|].
        split; [right; reflexivity|].
        exists start. split; [lia|].
        intros Hm. destruct (Hm x e Hx He) as [_ Hd].
        rewrite Hd, Dtype_eqb_refl in Hdt. discriminate.
    + right. eexists. split; [apply bind_throw; exact Hb|].
      split; [left; reflexivity|].
      exists start. split; [lia|].
      intros Hm. destruct (Hm x e Hx He) as [Hs' _]. contradiction.
Qed.

(** The run of [CalculateNumericalGradient] on arguments that pass its
    checks, when every contribution is defined: the gradients in closed
    form and the invocations of [func]. *)
Lemma CalculateNumericalGradient_run (func : Arrays -> Arrays)
    (inputs grad_outputs eps : Arrays) (G : nat -> nat -> nat -> Scalar)
    (x0 : Array) (t : Trace) :
  Z.of_nat (length inputs) < 2 ^ 31 ->
  Z.of_nat (length grad_outputs) < 2 ^ 31 ->
  length eps = length inputs ->
  (forall i, eps_matches inputs eps i) ->
  Forall array_wf inputs -> Forall array_wf eps ->
  Forall (fun x => supported (dtype x) = true) inputs ->
  inputs !! 0%nat = Some x0 ->
  (forall i x e k v j,
     inputs !! i = Some x -> eps !! i = Some e -> data e !! k = Some v ->
     (j < length grad_outputs)%nat ->
     central_difference func inputs grad_outputs (dtype x0) i k e
                        (mkScalar v (dtype e)) j = Ok (G i k j)) ->
  CalculateNumericalGradient func inputs grad_outputs eps t
  = (Ok (imap (expected_grad G (length grad_outputs)) inputs),
     t ++ all_calls inputs eps (dtype x0)).
Proof.
  intros Hfi Hfo Hlen Hm Hwi Hwe Hsup H0 HG.
  unfold gradient_internal.CalculateNumericalGradient. cbv zeta.
  rewrite !int_of_size_fits by assumption. rewrite !Nat2Z.id.
  unfold size_of_int. rewrite Z.mod_small by lia.
  rewrite Hlen, Z.eqb_refl. cbn [negb].
  destruct (validation_loop inputs eps t (length inputs) 0 ltac:(lia) Hlen)
    as [[Hval _]|(msg & _ & _ & i & _ & Hno)]; [|exfalso; exact (Hno (Hm i))].
  change (Z.of_nat 0) with 0 in Hval.
  rewrite (bind_eq _ _ _ _ _ Hval).
  rewrite (bind_lift_eq _ _ _ _ (index_nat inputs 0 x0 H0)).
  match goal with |- mfor 0 ?n ?body ?g0 t = _ =>
    destruct (mfor_inv
      (fun i grads t' =>
         grads = imap (expected_grad G (length grad_outputs)) (take i inputs) /\
         t' = t ++ concat (imap (calls_for_input inputs (dtype x0)) (take i eps)))
      body n 0 g0 t) as (g' & t' & Hrun & -> & ->)
  end.
  - split; [reflexivity|]. simpl. rewrite app_nil_r. reflexivity.
  - intros i grads t' Hi [-> ->]. rewrite Z.add_0_l.
    destruct (lookup_lt_is_Some_2 inputs i Hi) as [x Hx].
    destruct (lookup_lt_is_Some_2 eps i ltac:(lia)) as [e He].
    destruct (Hm i x e Hx He) as [Hsh Hdt].
    pose proof (proj1 (Forall_lookup _ _) Hwi i x Hx) as Hwx.
    pose proof (proj1 (Forall_lookup _ _) Hwe i e He) as Hwee.
    pose proof (proj1 (Forall_lookup _ _) Hsup i x Hx) as Hsx. simpl in Hsx.
    rewrite (bind_lift_eq _ _ _ _ (at_nat _ _ _ Hx)).
    change (total_size (ZerosLike x)) with (total_size x).
    rewrite (wf_length x Hwx).
    rewrite (bind_eq _ _ _ _ _
               (element_loop func inputs grad_outputs eps (dtype x0) (G i)
                  (length grad_outputs) i x e _ Hx He Hsx Hwx Hwee Hsh Hdt
                  (fun k v j Hv Hj => HG i x e k v j Hx He Hv Hj))).
    unfold ret. do 2 eexists. split; [reflexivity|]. split.
    + rewrite (take_S_r _ _ _ Hx), imap_app. simpl.
      rewrite length_take_le by lia. rewrite Nat.add_0_r. reflexivity.
    + rewrite (take_S_r _ _ _ He), imap_app, concat_app. simpl.
      rewrite length_take_le by lia. rewrite Nat.add_0_r, app_nil_r.
      rewrite <- app_assoc. reflexivity.
  - rewrite Hrun. rewrite take_ge by lia. rewrite take_ge by lia. reflexivity.
Qed.

(** C2.  When the number of [eps] arrays is not the number of inputs, or
    some [eps[i]] differs from [inputs[i]] in shape or in dtype,
    [CalculateNumericalGradient] throws the error of an invalid argument
    ([XchainerError], with one of its three messages) and the trace is the
    one it started with: [func] was not invoked.  The number of inputs is
    one that the [int] counter of the source holds. *)
Theorem invalid_eps_rejected_before_func (func : Arrays -> Arrays)
    (inputs grad_outputs eps : Arrays) (t : Trace) :
  Z.of_nat (length inputs) < 2 ^ 31 ->
  (length eps <> length inputs \/
   exists i x e, inputs !! i = Some x /\ eps !! i = Some e /\
                 (shape x <> shape e \/ dtype x <> dtype e)) ->
  exists msg,
    CalculateNumericalGradient func inputs grad_outputs eps t
    = (Throw (XchainerError msg), t) /\
    (msg = "Invalid number of eps arrays" \/ msg = "Invalid eps shape" \/
     msg = "Invalid eps dtype")%string.
Proof.
  intros Hfi Hbad.
  unfold gradient_internal.CalculateNumericalGradient. cbv zeta.
  rewrite (int_of_size_fits (length inputs)) by assumption.
  unfold size_of_int. rewrite Z.mod_small by lia.
  destruct (Z.eqb_spec (Z.of_nat (length eps)) (Z.of_nat (length inputs)))
    as [Heq|Hne]; cbn [negb].
  - apply Nat2Z.inj in Heq. rewrite Nat2Z.id.
    destruct (validation_loop inputs eps t (length inputs) 0 ltac:(lia) Heq)
      as [[_ Hall]|(msg & Hrun & Hmsg & _)].
    + exfalso. destruct Hbad as [Hl|(i & x & e & Hx & He & Hd)]; [contradiction|].
      destruct (Hall i ltac:(pose proof (lookup_lt_Some _ _ _ Hx); lia) x e Hx He).
      destruct Hd; contradiction.
    + exists msg. split; [|tauto].
      change (Z.of_nat 0) with 0 in Hrun. apply bind_throw. exact Hrun.
  - eexists. split; [reflexivity|]. left. reflexivity.
Qed.

(** What [CalculateNumericalGradient] computes, for every [func].  Let
    the arguments pass the checks of
    [CalculateNumericalGradient] (as many [eps] as inputs, each of the
    shape and dtype of its input), the inputs be arrays of a supported
    dtype, and every contribution be defined: [G i k j] is the vector dot
    product with [gradOutputs[j]] of the quotient by [2 * eps[i][k]] of
    [ys1[j] - ys0[j]], where [ys0] and [ys1] are the outputs of [func] on
    the copies of the inputs in which element [k] of input [i] is nudged
    by [eps[i][k]] rounded to [float], times [-1] and [+1], converted to
    the dtype of the first input.  Then the function returns one gradient
    per input; gradient [i] has the shape and the dtype of [inputs[i]],
    and its element [k] is the sum over the outputs [j], accumulated from
    zero in output order, of [G i k j]. *)
Theorem numerical_gradient_central_difference (func : Arrays -> Arrays)
    (inputs grad_outputs eps : Arrays) (G : nat -> nat -> nat -> Scalar)
    (x0 : Array) (t : Trace) :
  Z.of_nat (length inputs) < 2 ^ 31 ->
  Z.of_nat (length grad_outputs) < 2 ^ 31 ->
  length eps = length inputs ->
  (forall i, eps_matches inputs eps i) ->
  Forall array_wf inputs -> Forall array_wf eps ->
  Forall (fun x => supported (dtype x) = true) inputs ->
  inputs !! 0%nat = Some x0 ->
  (forall i x e k v j,
     inputs !! i = Some x -> eps !! i = Some e -> data e !! k = Some v ->
     (j < length grad_outputs)%nat ->
     central_difference func inputs grad_outputs (dtype x0) i k e
                        (mkScalar v (dtype e)) j = Ok (G i k j)) ->
  exists grads t',
    CalculateNumericalGradient func inputs grad_outputs eps t = (Ok grads, t') /\
    length grads = length inputs /\
    forall i x, inputs !! i = Some x ->
      exists g,
        grads !! i = Some g /\ shape g = shape x /\ dtype g = dtype x /\
        length (data g) = length (data x) /\
        forall k, (k < length (data x))%nat ->
          data g !! k
          = Some (accumulate (dtype x)
                    (map (G i k) (seq 0 (length grad_outputs)))).
Proof.
  intros Hfi Hfo Hlen Hm Hwi Hwe Hsup H0 HG.
  rewrite (CalculateNumericalGradient_run func inputs grad_outputs eps G x0 t)
    by assumption.
  do 2 eexists. split; [reflexivity|]. split; [apply length_imap|].
  intros i x Hx. exists (expected_grad G (length grad_outputs) i x).
  split; [rewrite list_lookup_imap, Hx; reflexivity|].
  split; [reflexivity|]. split; [reflexivity|].
  split; [apply length_imap|].
  intros k Hk. simpl.
  destruct (lookup_lt_is_Some_2 (data x) k Hk) as [old Hold].
  rewrite list_lookup_imap, Hold. reflexivity.
Qed.

(** C10.  In [CalculateNumericalGradient] every invocation of [func] is
    made on the copy of the inputs in which one element was replaced by
    its sum with the perturbation, and the perturbation is [eps[i][k]]
    converted to [float], multiplied in [float] by the multiplier [-1] or
    [+1], and then converted to the dtype of the first input.  For
    inputs of 64-bit floats the perturbation is therefore a [float]
    rounding of [eps[i][k]], not [eps[i][k]]: the product with the
    multiplier is exact, so the perturbation is the [float] next to
    [eps[i][k]], or its opposite, and for [eps[i][k] = 0.1] that [float],
    converted to [double], differs from the [double] [0.1]. *)
Theorem perturbation_is_float_rounded (func : Arrays -> Arrays)
    (inputs grad_outputs eps : Arrays) (G : nat -> nat -> nat -> Scalar)
    (x0 : Array) (t : Trace) :
  Z.of_nat (length inputs) < 2 ^ 31 ->
  Z.of_nat (length grad_outputs) < 2 ^ 31 ->
  length eps = length inputs ->
  (forall i, eps_matches inputs eps i) ->
  Forall array_wf inputs -> Forall array_wf eps ->
  Forall (fun x => supported (dtype x) = true) inputs ->
  inputs !! 0%nat = Some x0 ->
  (forall i x e k v j,
     inputs !! i = Some x -> eps !! i = Some e -> data e !! k = Some v ->
     (j < length grad_outputs)%nat ->
     central_difference func inputs grad_outputs (dtype x0) i k e
                        (mkScalar v (dtype e)) j = Ok (G i k j)) ->
  let by_ (v m : spec_float) : Scalar :=
    mkScalar (n_cast (native (dtype x0)) (SFmul 24 128 (to_float v) m))
             (dtype x0) in
  (* the invocations, in order *)
  snd (CalculateNumericalGradient func inputs grad_outputs eps t)
  = t ++ concat (imap (fun i e =>
           concat (imap (fun k v =>
             [perturbed inputs i k (by_ v (to_float num_minus_one));
              perturbed inputs i k (by_ v (to_float num_one))]) (data e))) eps) /\
  (* the argument of an invocation *)
  (forall i k x old p,
     inputs !! i = Some x -> data x !! k = Some old ->
     exists x',
       perturbed inputs i k p !! i = Some x' /\
       data x' !! k
       = Some (n_cast (native (dtype x))
                 (s_value (Scalar_add (mkScalar old (dtype x)) p))) /\
       forall i', i' <> i ->
                  perturbed inputs i k p !! i' = Array_copy <$> inputs !! i') /\
  (* the perturbation is the float next to eps, or its opposite, converted
     to the dtype of the first input *)
  (forall v, valid_binary 24 128 (to_float v) = true ->
     by_ v (to_float num_one)
     = mkScalar (n_cast (native (dtype x0)) (to_float v)) (dtype x0) /\
     by_ v (to_float num_minus_one)
     = mkScalar (n_cast (native (dtype x0)) (SFopp (to_float v))) (dtype x0)) /\
  (* for 64-bit inputs and eps = 0.1 it is not eps *)
  (let tenth := SFdiv 53 1024 (to_double num_one)
                      (to_double (S754_finite false 10 0)) in
   valid_binary 24 128 (to_float tenth) = true /\
   valid_binary 53 1024 tenth = true /\
   n_cast (native kFloat64) (to_float tenth) <> tenth).
Proof.
  intros Hfi Hfo Hlen Hm Hwi Hwe Hsup H0 HG by_.
  rewrite (CalculateNumericalGradient_run func inputs grad_outputs eps G x0 t)
    by assumption.
  split; [reflexivity|]. split.
  - intros i k x old p Hx Hold. unfold gradient_internal.perturbed.
    exists (nudged (Array_copy x) k p). split; [|split].
    + rewrite list_lookup_alter_eq, list_lookup_fmap, Hx. reflexivity.
    + unfold gradient_internal.nudged. simpl.
      rewrite list_lookup_alter_eq, Hold. reflexivity.
    + intros i' Hne. rewrite list_lookup_alter_ne by congruence.
      apply list_lookup_fmap.
  - split.
    + intros v Hv. subst by_. cbv beta.
      rewrite (SFmul_float_one _ Hv), (SFmul_float_minus_one _ Hv).
      split; reflexivity.
    + split; [vm_compute; reflexivity|]. split; [vm_compute; reflexivity|].
      vm_compute. discriminate.
Qed.

End NumericalGradient.

(** ** The backward check *)

Lemma bind_Ok_inv {A B} (m : M A) (k : A -> M B) (t t' : Trace) (b : B) :
  bind m k t = (Ok b, t') ->
  exists a t1, m t = (Ok a, t1) /\ k a t1 = (Ok b, t').
Proof.
  unfold bind. destruct (m t) as [[a| | |] t1]; try discriminate. eauto.
Qed.

Lemma bind_assoc {A B C} (m : M A) (f : A -> M B) (g : B -> M C) (t : Trace) :
  bind (bind m f) g t = bind m (fun x => bind (f x) g) t.
Proof. unfold bind. destruct (m t) as [[a| | |] t1]; reflexivity. Qed.

Lemma bind_ext {A B} (m : M A) (k1 k2 : A -> M B) (t : Trace) :
  (forall a t', k1 a t' = k2 a t') -> bind m k1 t = bind m k2 t.
Proof.
  intros H. unfold bind. destruct (m t) as [[a| | |] t1]; try reflexivity. apply H.
Qed.

Lemma transform_length {A B} (f : A -> Outcome B) (v : list A) (l : list B) :
  gradient_internal.transform f v = Ok l -> length l = length v.
Proof.
  revert l. induction v as [|x v IH]; intros l H; simpl in H.
  - injection H as <-. reflexivity.
  - destruct (f x); try discriminate. simpl in H.
    destruct (gradient_internal.transform f v); try discriminate. simpl in H.
    injection H as <-. simpl. f_equal. apply IH. reflexivity.
Qed.

Section BackwardCheck.

Import gradient_internal.

Variable other_ops : nat -> NativeOps.
Variable indeterminate : nat -> spec_float.
Variable Scalar_add : Scalar -> Scalar -> Scalar.
Variable AllClose : Array -> Array -> spec_float -> spec_float -> bool.
Variable Backward : Array -> Outcome (Array -> option Array).
Variable missing_gradient : Exn.

Local Abbreviation EmptyLike := (EmptyLike indeterminate).
Local Abbreviation Identity := (Identity indeterminate).
Local Abbreviation CalculateNumericalGradient :=
  (CalculateNumericalGradient other_ops indeterminate Scalar_add).
Local Abbreviation CheckBackwardComputation :=
  (CheckBackwardComputation other_ops indeterminate Scalar_add AllClose Backward
     missing_gradient).
Local Abbreviation gradients_to_compare :=
  (gradients_to_compare other_ops indeterminate Scalar_add Backward missing_gradient).

(** [CalculateNumericalGradient] returns one gradient per input. *)
Lemma CalculateNumericalGradient_length (func : Arrays -> Arrays)
    (inputs grad_outputs eps grads : Arrays) (t t' : Trace) :
  Z.of_nat (length inputs) < 2 ^ 31 ->
  CalculateNumericalGradient func inputs grad_outputs eps t = (Ok grads, t') ->
  length grads = length inputs.
Proof.
  intros Hfi Hrun.
  unfold gradient_internal.CalculateNumericalGradient in Hrun. cbv zeta in Hrun.
  rewrite (int_of_size_fits (length inputs)) in Hrun by assumption.
  rewrite Nat2Z.id in Hrun.
  destruct (negb _); [discriminate|].
  apply bind_Ok_inv in Hrun as (u & t1 & _ & Hrun).
  apply bind_Ok_inv in Hrun as (x0 & t2 & _ & Hrun).
  apply (mfor_inv_partial (fun i (grads : Arrays) => length grads = i)) in Hrun.
  - exact Hrun.
  - reflexivity.
  - intros k s ta s' tb Hk Hs Hb.
    apply bind_Ok_inv in Hb as (x & t3 & _ & Hb).
    apply bind_Ok_inv in Hb as (g & t4 & _ & Hb).
    unfold ret in Hb. injection Hb as <- _.
    rewrite length_app. simpl. lia.
Qed.

(** [Identity] copies every array of a list of well-formed arrays. *)
Lemma Identity_Ok (ys : Arrays) :
  Forall array_wf ys ->
  exists outs, Identity ys = Ok outs /\ length outs = length ys.
Proof.
  intros Hwf. unfold gradient_internal.Identity, Identity_into.
  match goal with |- exists outs, ofor 0 ?n ?body ?o0 = _ /\ _ =>
    destruct (ofor_inv
      (fun (_ : nat) (outs : Arrays) =>
         Forall2 (fun o y => length (data o) = length (data y)) outs ys)
      body n 0 o0) as (outs & Hrun & Hinv)
  end.
  - apply Forall2_fmap_l. apply Forall_Forall2_diag.
    eapply Forall_impl; [exact Hwf|]. intros y Hy. simpl.
    rewrite length_map, length_seq. apply wf_length. exact Hy.
  - intros k outs Hk Hinv. rewrite Z.add_0_l.
    destruct (lookup_lt_is_Some_2 ys k Hk) as [y Hy].
    pose proof (Forall2_length _ _ _ Hinv) as Hlen.
    destruct (lookup_lt_is_Some_2 outs k ltac:(lia)) as [o Ho].
    pose proof (Forall2_lookup_lr _ _ _ _ _ _ Hinv Ho Hy) as Hdl. simpl in Hdl.
    pose proof (proj1 (Forall_lookup _ _) Hwf k y Hy) as Hwy.
    rewrite (index_nat _ _ _ Hy), (index_nat _ _ _ Ho). simpl.
    set (out := if requires_grad y then _ else o).
    assert (Hod : data out = data o) by (subst out; destruct (requires_grad y); reflexivity).
    unfold MemoryCopy. rewrite Hod.
    unfold array_wf in Hwy.
    destruct (Z.leb_spec 0 (total_size y)); [|lia].
    destruct (Z.leb_spec (total_size y) (Z.of_nat (length (data y)))); [|lia].
    destruct (Z.leb_spec (total_size y) (Z.of_nat (length (data o)))); [|lia].
    simpl. unfold assign.
    destruct (Z.ltb_spec (Z.of_nat k) 0); [lia|].
    rewrite Nat2Z.id.
    destruct (Nat.ltb_spec k (length outs)); [|lia].
    eexists. split; [reflexivity|].
    rewrite <- (list_insert_id ys k y Hy).
    apply Forall2_insert; [exact Hinv|]. simpl.
    rewrite length_app, length_take, length_drop. lia.
  - exists outs. split; [exact Hrun|]. apply (Forall2_length _ _ _ Hinv).
Qed.

(** [CheckBackwardComputation] is the steps of [gradients_to_compare]
    followed by the loop of comparisons. *)
Lemma CheckBackwardComputation_split (func : Arrays -> Arrays)
    (inputs grad_outputs eps : Arrays) (atol rtol : spec_float) (t : Trace) :
  CheckBackwardComputation func inputs grad_outputs eps atol rtol t
  = bind (gradients_to_compare func inputs grad_outputs eps)
      (fun bn =>
         mfor 0 (length (fst bn))
           (fun i _ =>
              b <- lift (index (fst bn) i) ;;
              n <- lift (index (snd bn) i) ;;
              if negb (AllClose b n atol rtol)
              then throw (AssertionError "too large errors")
              else ret tt)
           tt) t.
Proof.
  unfold gradient_internal.CheckBackwardComputation,
    gradient_internal.gradients_to_compare.
  rewrite bind_assoc. apply bind_ext; intros ys t1.
  rewrite bind_assoc. apply bind_ext; intros outs t2.
  destruct (negb (length outs =? length grad_outputs)%nat); [reflexivity|].
  cbv zeta.
  rewrite bind_assoc. apply bind_ext; intros outs' t3.
  rewrite bind_assoc. apply bind_ext; intros root t4.
  rewrite bind_assoc. apply bind_ext; intros stored t5.
  rewrite bind_assoc. apply bind_ext; intros bgs t6.
  rewrite bind_assoc. apply bind_ext; intros ngs t7.
  reflexivity.
Qed.

(** The loop of comparisons stops with the error at the first pair of
    gradients that are not close, and ends normally when there is none. *)
Lemma compare_loop (bgs ngs : Arrays) (atol rtol : spec_float) (t : Trace)
    (n : nat) :
  forall start : nat,
    (start + n <= length bgs)%nat -> (length bgs <= length ngs)%nat ->
    let close (i : nat) : Prop :=
      forall b g, bgs !! i = Some b -> ngs !! i = Some g ->
                  AllClose b g atol rtol = true in
    let r :=
      mfor (Z.of_nat start) n
        (fun i _ =>
           b <- lift (index bgs i) ;;
           n <- lift (index ngs i) ;;
           if negb (AllClose b n atol rtol)
           then throw (AssertionError "too large errors")
           else ret tt)
        tt t in
    (r = (Ok tt, t) /\ forall i, (start <= i < start + n)%nat -> close i) \/
    (r = (Throw (AssertionError "too large errors"), t) /\
     exists i, (start <= i < start + n)%nat /\ ~ close i /\
               forall j, (start <= j < i)%nat -> close j).
Proof.
  intros start Hn Hlen close. revert start Hn.
  match goal with |- forall start, _ -> let r := mfor _ _ ?b _ _ in _ =>
    set (body := b) end.
  induction n as [|n IH]; intros start Hn r; subst r.
  - left. split; [reflexivity|]. intros i Hi. lia.
  - destruct (lookup_lt_is_Some_2 bgs start ltac:(lia)) as [b Hb].
    destruct (lookup_lt_is_Some_2 ngs start ltac:(lia)) as [g Hg].
    change (mfor (Z.of_nat start) (S n) body tt t)
      with (bind (body (Z.of_nat start) tt)
                 (fun s' => mfor (Z.of_nat start + 1) n body s') t).
    assert (Hbody : body (Z.of_nat start) tt t
                    = (if negb (AllClose b g atol rtol)
                       then throw (AssertionError "too large errors")
                       else ret tt) t).
    { subst body. cbv beta.
      rewrite (bind_lift_eq _ _ _ _ (index_nat _ _ _ Hb)).
      rewrite (bind_lift_eq _ _ _ _ (index_nat _ _ _ Hg)). reflexivity. }
    destruct (AllClose b g atol rtol) eqn:Hc; cbn [negb] in Hbody.
    + rewrite (bind_eq _ _ _ _ _ Hbody).
      replace (Z.of_nat start + 1) with (Z.of_nat (S start)) by lia.
      destruct (IH (S start) ltac:(lia)) as [[Hrun Hall]|(Hrun & i & Hi & Hno & Hbefore)].
      * left. split; [exact Hrun|]. intros i Hi.
        destruct (decide (i = start)) as [->|Hne].
        -- intros b' g' Hb' Hg'. congruence.
        -- apply Hall. lia.
      * right. split; [exact Hrun|]. exists i. split; [lia|]. split; [exact Hno|].
        intros j Hj. destruct (decide (j = start)) as [->|Hne].
        -- intros b' g' Hb' Hg'. congruence.
        -- apply Hbefore. lia.
    + right. split; [apply bind_throw; exact Hbody|].
      exists start. split; [lia|]. split.
      * intros Hcl. rewrite (Hcl b g Hb Hg) in Hc. discriminate.
      * intros j Hj. lia.
Qed.

(** C4.  Once the gradients of backprop [bgs] and the numerical gradients
    [ngs] have been computed, one of each per input,
    [CheckBackwardComputation] throws [AssertionError] with the message
    "too large errors" if and only if for some input the two gradients
    are not close according to [AllClose] with [atol] and [rtol]; it then
    throws at the first such input in input order, every input before
    which is close.  It returns normally, with the unit value, if and only
    if the gradients of every input are close. *)
Theorem too_large_errors_iff_not_close (func : Arrays -> Arrays)
    (inputs grad_outputs eps : Arrays) (atol rtol : spec_float)
    (bgs ngs : Arrays) (t t' : Trace) :
  Z.of_nat (length inputs) < 2 ^ 31 ->
  gradients_to_compare func inputs grad_outputs eps t = (Ok (bgs, ngs), t') ->
  let r := CheckBackwardComputation func inputs grad_outputs eps atol rtol t in
  let close (i : nat) : Prop :=
    forall b g, bgs !! i = Some b -> ngs !! i = Some g ->
                AllClose b g atol rtol = true in
  (length bgs = length inputs /\ length ngs = length inputs) /\
  (r = (Throw (AssertionError "too large errors"), t') <->
   exists i, (i < length inputs)%nat /\ ~ close i) /\
  (r = (Throw (AssertionError "too large errors"), t') <->
   exists i, (i < length inputs)%nat /\ ~ close i /\
             forall j, (j < i)%nat -> close j) /\
  (r = (Ok tt, t') <-> forall i, (i < length inputs)%nat -> close i).
Proof.
  intros Hfi Hpre r close. subst r.
  rewrite CheckBackwardComputation_split, (bind_eq _ _ _ _ _ Hpre). cbn [fst snd].
  assert (Hlens : length bgs = length inputs /\ length ngs = length inputs).
  { unfold gradient_internal.gradients_to_compare in Hpre.
    apply bind_Ok_inv in Hpre as (ys & t1 & _ & Hpre).
    apply bind_Ok_inv in Hpre as (outs & t2 & _ & Hpre).
    destruct (negb _); [discriminate|]. cbv zeta in Hpre.
    apply bind_Ok_inv in Hpre as (outs' & t3 & _ & Hpre).
    apply bind_Ok_inv in Hpre as (root & t4 & _ & Hpre).
    apply bind_Ok_inv in Hpre as (stored & t5 & _ & Hpre).
    apply bind_Ok_inv in Hpre as (bgs' & t6 & Htr & Hpre).
    apply bind_Ok_inv in Hpre as (ngs' & t7 & Hng & Hpre).
    unfold ret in Hpre. injection Hpre as -> -> _.
    unfold lift in Htr. injection Htr as Htr _.
    apply transform_length in Htr. rewrite length_map in Htr.
    apply CalculateNumericalGradient_length in Hng;
      rewrite length_map in *; [|assumption].
    split; assumption. }
  destruct Hlens as [Hlb Hln]. split; [split; assumption|].
  pose proof (compare_loop bgs ngs atol rtol t' (length bgs) 0
                ltac:(lia) ltac:(lia)) as Hloop.
  cbv zeta in Hloop. change (Z.of_nat 0) with 0 in Hloop.
  destruct Hloop as [[Hrun Hall]|(Hrun & i & Hi & Hno & Hbefore)]; rewrite Hrun.
  - split; [|split].
    + split; [discriminate|]. intros (i & Hi & Hno). exfalso. apply Hno. exact (Hall i ltac:(lia)).
    + split; [discriminate|]. intros (i & Hi & Hno & _). exfalso. apply Hno. exact (Hall i ltac:(lia)).
    + split; [|reflexivity]. intros _ i Hi. exact (Hall i ltac:(lia)).
  - split; [|split].
    + split; [|reflexivity]. intros _. exists i. split; [lia|exact Hno].
    + split; [|reflexivity]. intros _. exists i. split; [lia|]. split; [exact Hno|].
      intros j Hj. exact (Hbefore j ltac:(lia)).
    + split; [discriminate|]. intros Hall. exfalso. apply Hno. exact (Hall i ltac:(lia)).
Qed.

(** C5 (as amended).  When the outputs of [func] are well-formed arrays
    and their number is not the number of [gradOutputs],
    [CheckBackwardComputation] throws [std::invalid_argument] after one
    evaluation of [func] on the inputs, the one that produces the outputs
    it counts, and before anything else is evaluated: the trace grows by
    that one invocation. *)
Theorem output_count_mismatch_after_one_call (func : Arrays -> Arrays)
    (inputs grad_outputs eps : Arrays) (atol rtol : spec_float) (t : Trace) :
  Forall array_wf (func inputs) ->
  length (func inputs) <> length grad_outputs ->
  CheckBackwardComputation func inputs grad_outputs eps atol rtol t
  = (Throw (invalid_argument
       "Number of given output gradients does not match the actual number of outputs"),
     t ++ [inputs]).
Proof.
  intros Hwf Hne. unfold gradient_internal.CheckBackwardComputation.
  unfold bind at 1. unfold call.
  destruct (Identity_Ok (func inputs) Hwf) as (outs & Hid & Hlen).
  rewrite (bind_lift_eq _ _ _ _ Hid).
  destruct (Nat.eqb_spec (length outs) (length grad_outputs)) as [Heq|_]; [lia|].
  reflexivity.
Qed.

End BackwardCheck.

(** ** The properties on the sample data *)

Section OnSamples.

Import gradient_internal.
Import Sample.

Local Abbreviation CalculateNumericalGradient :=
  (CalculateNumericalGradient other_ops indeterminate Scalar_add).
Local Abbreviation CheckBackwardComputation :=
  (CheckBackwardComputation other_ops indeterminate Scalar_add AllClose Backward
     missing_gradient).
Local Abbreviation gradients_to_compare :=
  (gradients_to_compare other_ops indeterminate Scalar_add Backward missing_gradient).

(** The check passes for the identity function. *)
Example check_identity_passes :
  fst (CheckBackwardComputation identity_func [x64_grad] [gout64] [eps64]
         atol rtol []) = Ok tt.
Proof. vm_compute. reflexivity. Qed.

(** The numerical gradient of the identity function on [float] arrays:
    [gradOutputs] itself. *)
Example gradient_of_identity_float :
  fst (CalculateNumericalGradient identity_func [x32] [vec32 [dZ 3]]
         [vec32 [dQ 1 2]] [])
  = Ok [vec32 [dZ 3]].
Proof. vm_compute. reflexivity. Qed.

Lemma Subtract_Divide_elementwise_witness :
  array_wf d35 /\ array_wf d12 /\ shape d12 = shape d35 /\ dtype d12 = dtype d35 /\
  exists d q,
    operator_sub other_ops indeterminate d35 d12 = Ok d /\
    operator_div other_ops indeterminate d35 d12 = Ok q /\
    data d !! 1%nat = Some (SFsub 53 1024 (dZ 5) (dZ 2)) /\
    data q !! 1%nat = Some (SFdiv 53 1024 (dZ 5) (dZ 2)).
Proof.
  assert (H1 : array_wf d35) by reflexivity.
  assert (H2 : array_wf d12) by reflexivity.
  assert (H3 : shape d12 = shape d35) by reflexivity.
  assert (H4 : dtype d12 = dtype d35) by reflexivity.
  repeat (split; [assumption|]).
  destruct (Subtract_Divide_elementwise other_ops indeterminate d35 d12 H1 H2 H3 H4)
    as (d & q & Hd & Hq & _ & _ & Hel).
  exists d, q. split; [exact Hd|]. split; [exact Hq|].
  apply (Hel 1%nat); reflexivity.
Defined.

Lemma Get_Set_roundtrip_witness :
  supported (dtype f12) = true /\ array_wf f12 /\ 0 <= 1 < total_size f12 /\
  representable other_ops (dtype f12) half /\
  exists a' r, Set_ f12 1 half = Ok a' /\ Get a' 1 = Ok r /\
               double_of_Scalar r = double_of_Scalar half.
Proof.
  assert (H1 : supported (dtype f12) = true) by reflexivity.
  assert (H2 : array_wf f12) by reflexivity.
  assert (H3 : 0 <= 1 < total_size f12)
    by (vm_compute; split; [discriminate|reflexivity]).
  assert (H4 : representable other_ops (dtype f12) half) by (vm_compute; reflexivity).
  repeat (split; [assumption|]).
  destruct (Get_Set_roundtrip other_ops f12 1 half H1 H2 H3 H4)
    as (a' & r & Hs & Hg & _ & Hv & _).
  exists a', r. repeat split; assumption.
Defined.

Lemma Norm_VectorDot_spec_witness :
  supported (dtype f34) = true /\ array_wf f34 /\ array_wf f12 /\
  shape f12 = shape f34 /\ dtype f12 = dtype f34 /\
  Norm other_ops indeterminate f34 = Ok (Scalar_float (to_float (dZ 5))) /\
  VectorDot other_ops indeterminate f34 f12 = Ok (Scalar_float (to_float (dZ 11))).
Proof.
  assert (H1 : supported (dtype f34) = true) by reflexivity.
  assert (H2 : array_wf f34) by reflexivity.
  assert (H3 : array_wf f12) by reflexivity.
  assert (H4 : shape f12 = shape f34) by reflexivity.
  assert (H5 : dtype f12 = dtype f34) by reflexivity.
  repeat (split; [assumption|]).
  destruct (Norm_VectorDot_spec other_ops indeterminate f34 f12 H1 H2 H3 H4 H5)
    as [(xx & s & _ & _ & Hs & Hn & _) (xy & _ & _ & _ & Hv)].
  split.
  - rewrite Hn, Hs. vm_compute. reflexivity.
  - rewrite Hv. vm_compute. reflexivity.
Defined.

Lemma invalid_eps_rejected_before_func_witness :
  Z.of_nat (length [x64]) < 2 ^ 31 /\
  (length [eps64; eps64] <> length [x64] \/
   exists i x e, [x64] !! i = Some x /\ [eps64; eps64] !! i = Some e /\
                 (shape x <> shape e \/ dtype x <> dtype e)) /\
  exists msg,
    CalculateNumericalGradient identity_func [x64] [gout64] [eps64; eps64] []
    = (Throw (XchainerError msg), []).
Proof.
  assert (H1 : Z.of_nat (length [x64]) < 2 ^ 31) by reflexivity.
  assert (H2 : length [eps64; eps64] <> length [x64] \/
               exists i x e, [x64] !! i = Some x /\ [eps64; eps64] !! i = Some e /\
                             (shape x <> shape e \/ dtype x <> dtype e)).
  { left. simpl. lia. }
  split; [exact H1|]. split; [exact H2|].
  destruct (invalid_eps_rejected_before_func other_ops indeterminate Scalar_add
              identity_func [x64] [gout64] [eps64; eps64] [] H1 H2) as (msg & Hr & _).
  exists msg. exact Hr.
Defined.

(** The hypotheses of the theorems on [CalculateNumericalGradient] hold of
    [identity_func] on [x64], [eps64] and [gout64]. *)
Lemma sample_eps_matches : forall i, eps_matches [x64] [eps64] i.
Proof.
  intros [|i] x e Hx He; [|discriminate].
  injection Hx as <-. injection He as <-. split; reflexivity.
Defined.

Lemma sample_contributions :
  forall i x e k v j,
    [x64] !! i = Some x -> [eps64] !! i = Some e -> data e !! k = Some v ->
    (j < length [gout64])%nat ->
    central_difference other_ops indeterminate Scalar_add identity_func
      [x64] [gout64] (dtype x64) i k e (mkScalar v (dtype e)) j
    = Ok (G64 i k j).
Proof.
  intros [|i] x e k v j Hx He Hv Hj; [|discriminate].
  injection Hx as <-. injection He as <-.
  destruct k as [|k]; [|discriminate]. injection Hv as <-.
  destruct j as [|j]; [|simpl in Hj; lia].
  vm_compute. reflexivity.
Defined.

Lemma numerical_gradient_central_difference_witness :
  Z.of_nat (length [x64]) < 2 ^ 31 /\
  Z.of_nat (length [gout64]) < 2 ^ 31 /\
  length [eps64] = length [x64] /\
  Forall array_wf [x64] /\ Forall array_wf [eps64] /\
  Forall (fun x => supported (dtype x) = true) [x64] /\
  [x64] !! 0%nat = Some x64 /\
  exists g t',
    CalculateNumericalGradient identity_func [x64] [gout64] [eps64] []
    = (Ok [g], t') /\
    data g !! 0%nat
    = Some (accumulate other_ops Scalar_add kFloat64 [G64 0 0 0]).
Proof.
  assert (H1 : Z.of_nat (length [x64]) < 2 ^ 31) by reflexivity.
  assert (H2 : Z.of_nat (length [gout64]) < 2 ^ 31) by reflexivity.
  assert (H3 : length [eps64] = length [x64]) by reflexivity.
  assert (H4 : Forall array_wf [x64]) by (repeat constructor).
  assert (H5 : Forall array_wf [eps64]) by (repeat constructor).
  assert (H6 : Forall (fun x => supported (dtype x) = true) [x64])
    by (repeat constructor).
  assert (H7 : [x64] !! 0%nat = Some x64) by reflexivity.
  repeat (split; [assumption|]).
  destruct (numerical_gradient_central_difference other_ops indeterminate
              Scalar_add identity_func [x64] [gout64] [eps64] G64 x64 []
              H1 H2 H3 sample_eps_matches H4 H5 H6 H7 sample_contributions)
    as (grads & t' & Hrun & Hlen & Hel).
  destruct (Hel 0%nat x64 eq_refl) as (g & Hg & _ & _ & _ & Hk).
  destruct grads as [|g0 [|g1 grads]]; try discriminate.
  injection Hg as ->.
  exists g, t'. split; [exact Hrun|]. apply (Hk 0%nat). simpl. lia.
Defined.

Lemma perturbation_is_float_rounded_witness :
  Z.of_nat (length [x64]) < 2 ^ 31 /\
  Z.of_nat (length [gout64]) < 2 ^ 31 /\
  length [eps64] = length [x64] /\
  Forall array_wf [x64] /\ Forall array_wf [eps64] /\
  Forall (fun x => supported (dtype x) = true) [x64] /\
  [x64] !! 0%nat = Some x64 /\
  snd (CalculateNumericalGradient identity_func [x64] [gout64] [eps64] [])
  = [ [vec64 [dQ 1 2]]; [vec64 [dQ 3 2]] ].
Proof.
  assert (H1 : Z.of_nat (length [x64]) < 2 ^ 31) by reflexivity.
  assert (H2 : Z.of_nat (length [gout64]) < 2 ^ 31) by reflexivity.
  assert (H3 : length [eps64] = length [x64]) by reflexivity.
  assert (H4 : Forall array_wf [x64]) by (repeat constructor).
  assert (H5 : Forall array_wf [eps64]) by (repeat constructor).
  assert (H6 : Forall (fun x => supported (dtype x) = true) [x64])
    by (repeat constructor).
  assert (H7 : [x64] !! 0%nat = Some x64) by reflexivity.
  repeat (split; [assumption|]).
  destruct (perturbation_is_float_rounded other_ops indeterminate
              Scalar_add identity_func [x64] [gout64] [eps64] G64 x64 []
              H1 H2 H3 sample_eps_matches H4 H5 H6 H7 sample_contributions)
    as (Htrace & _).
  rewrite Htrace. vm_compute. reflexivity.
Defined.

(** C1 on the code.  For inputs of 64-bit floats the gradient the code
    returns is not the central difference at [-eps] and [+eps] that C1
    states, and that the code divides by: for the identity function on
    the input [1.0] with [eps = 0.1] and the output gradient [3.0], the
    returned element is not the sum of the contributions for the
    perturbations [-eps] and [+eps].  [eval] perturbs by
    [static_cast<float>(eps_scalar) * multiplier], the [float] next to
    [0.1], while the denominator is [eps * 2] in the dtype of the
    arrays. *)
Lemma gradient_nudge_is_not_exact_eps :
  exists g s,
    fst (CalculateNumericalGradient identity_func [x64] [gout64] [tenth64] [])
    = Ok [g] /\
    central_difference_exact other_ops indeterminate Scalar_add identity_func
      [x64] [gout64] kFloat64 0 0 tenth64 (mkScalar (dQ 1 10) kFloat64) 0
    = Ok s /\
    data g !! 0%nat <> Some (accumulate other_ops Scalar_add kFloat64 [s]).
Proof.
  let r := eval vm_compute in
        (fst (CalculateNumericalGradient identity_func [x64] [gout64] [tenth64] []))
  in match r with Ok [?g] => exists g end.
  let r := eval vm_compute in
        (central_difference_exact other_ops indeterminate Scalar_add identity_func
           [x64] [gout64] kFloat64 0 0 tenth64 (mkScalar (dQ 1 10) kFloat64) 0)
  in match r with Ok ?s => exists s end.
  split; [vm_compute; reflexivity|]. split; [vm_compute; reflexivity|].
  vm_compute. discriminate.
Qed.

Lemma too_large_errors_iff_not_close_witness :
  exists bgs ngs t',
    Z.of_nat (length [x64_grad]) < 2 ^ 31 /\
    gradients_to_compare identity_func [x64_grad] [gout64] [eps64] []
    = (Ok (bgs, ngs), t') /\
    (CheckBackwardComputation identity_func [x64_grad] [gout64] [eps64] atol rtol []
     = (Ok tt, t') <->
     forall i, (i < length [x64_grad])%nat ->
       forall b g, bgs !! i = Some b -> ngs !! i = Some g ->
                   AllClose b g atol rtol = true).
Proof.
  assert (H1 : Z.of_nat (length [x64_grad]) < 2 ^ 31) by reflexivity.
  destruct (gradients_to_compare identity_func [x64_grad] [gout64] [eps64] [])
    as [[[bgs ngs]| | |] t'] eqn:E;
    try (exfalso; vm_compute in E; discriminate).
  exists bgs, ngs, t'. split; [exact H1|]. split; [reflexivity|].
  exact (proj2 (proj2 (proj2
           (too_large_errors_iff_not_close other_ops indeterminate Scalar_add
              AllClose Backward missing_gradient identity_func [x64_grad] [gout64] [eps64]
              atol rtol bgs ngs [] t' H1 E)))).
Defined.

Lemma output_count_mismatch_after_one_call_witness :
  Forall array_wf (identity_func [x64]) /\
  length (identity_func [x64]) <> length (@nil Array) /\
  CheckBackwardComputation identity_func [x64] [] [eps64] atol rtol []
  = (Throw (invalid_argument
       "Number of given output gradients does not match the actual number of outputs"),
     [[x64]]).
Proof.
  assert (H1 : Forall array_wf (identity_func [x64])) by (repeat constructor).
  assert (H2 : length (identity_func [x64]) <> length (@nil Array))
    by (simpl; lia).
  split; [exact H1|]. split; [exact H2|].
  exact (output_count_mismatch_after_one_call other_ops indeterminate Scalar_add
           AllClose Backward missing_gradient identity_func [x64] [] [eps64] atol rtol [] H1 H2).
Defined.

(** C5, as it is stated, fails: the mismatch of the number of outputs is
    found after [func] was evaluated, not before any evaluation.  With one
    output and no output gradient the error is thrown and the trace holds
    the invocation of [func]. *)
Lemma output_count_is_checked_after_func :
  fst (CheckBackwardComputation identity_func [x64] [] [eps64] atol rtol [])
  = Throw (invalid_argument
      "Number of given output gradients does not match the actual number of outputs")
  /\
  snd (CheckBackwardComputation identity_func [x64] [] [eps64] atol rtol [])
  = [[x64]] /\
  snd (CheckBackwardComputation identity_func [x64] [] [eps64] atol rtol [])
  <> [].
Proof.
  split; [vm_compute; reflexivity|].
  split; [vm_compute; reflexivity|]. vm_compute. discriminate.
Qed.

(** C3 on the code.  [eval] on an input that requires a gradient gives
    [func] a copy whose node was produced by an op node with the node of
    the caller's input as its input: the copy is linked to the original
    in the computational graph, as the comment in [eval] says.  The
    buffer of the original is not written. *)
Lemma eval_copy_keeps_edge_to_original :
  exists a,
    snd (eval other_ops Scalar_add identity_func [x64_grad] kFloat64 0 0 half
           (to_float num_one) [])
    = [[a]] /\
    data a = [dQ 3 2] /\ data x64_grad = [dZ 1] /\
    next_node (node a) = Some (mkOpNode "copy" [node x64_grad]).
Proof.
  let r := eval vm_compute in
        (snd (eval other_ops Scalar_add identity_func [x64_grad] kFloat64 0 0 half
                (to_float num_one) []))
  in match r with [[?a]] => exists a end.
  split; [vm_compute; reflexivity|].
  split; [vm_compute; reflexivity|]. split; reflexivity.
Qed.

End OnSamples.

(** * Further properties of the kernel and the accessors *)

(** The loop of the elementwise kernels ends in undefined behaviour as
    soon as one of the three buffers is shorter than the number of
    iterations: no access is checked. *)
Lemma kernel_loop_short (op : spec_float -> spec_float -> spec_float)
    (l r : list spec_float) (n : nat) :
  forall (start : nat) (o : list spec_float),
    (start <= length l)%nat -> (start <= length r)%nat ->
    (start <= length o)%nat ->
    (length l < start + n \/ length r < start + n \/ length o < start + n)%nat ->
    ofor (Z.of_nat start) n
      (fun i od => x <~ load l i ;; y <~ load r i ;; store od i (op x y)) o
    = Undefined.
Proof.
  induction n as [|n IH]; intros start o Hl Hr Ho Hshort; [lia|].
  cbn [ofor]. rewrite !load_nat.
  destruct (l !! start) as [x|] eqn:Hx; [|reflexivity]. cbn [obind].
  destruct (r !! start) as [y|] eqn:Hy; [|reflexivity]. cbn [obind].
  apply lookup_lt_Some in Hx. apply lookup_lt_Some in Hy.
  destruct (decide (start < length o)%nat) as [Hlt|Hge].
  - rewrite store_nat by exact Hlt. cbn [obind].
    replace (Z.of_nat start + 1) with (Z.of_nat (S start)) by lia.
    apply IH; rewrite ?length_insert; lia.
  - unfold store. destruct (Z.ltb_spec (Z.of_nat start) 0); [reflexivity|].
    rewrite Nat2Z.id. destruct (Nat.ltb_spec start (length o)); [lia|reflexivity].
Qed.

Section KernelExtras.

Import gradient_internal.

Variable other_ops : nat -> NativeOps.
Variable indeterminate : nat -> spec_float.

Local Abbreviation native := (native other_ops).
Local Abbreviation Subtract := (Subtract other_ops).
Local Abbreviation Divide := (Divide other_ops).

(** [Sum(x)] on a well-formed array of a supported dtype is the scalar, of
    the dtype of the array, that holds the elements added one by one from
    zero, first element first, in the arithmetic of the native type. *)
Theorem Sum_is_left_fold (x : Array) :
  array_wf x -> supported (dtype x) = true ->
  Sum x = Ok (mkScalar (fold_left (n_add (native (dtype x))) (data x) num_zero)
                       (dtype x)).
Proof. intros Hwf Hs. apply Sum_spec; assumption. Qed.

(** [Subtract(lhs, rhs, out)] and [Divide(lhs, rhs, out)] into an array
    of the caller write the first [lhs.total_size()] elements of [out] and
    nothing else: the shape, the dtype, the gradient flag, the node and
    the elements of [out] from [lhs.total_size()] on are kept.  [rhs] and
    [out] may hold more elements than [lhs]. *)
Theorem Subtract_Divide_write_only_total_size (lhs rhs out : Array) :
  array_wf lhs -> dtype rhs = dtype lhs -> dtype out = dtype lhs ->
  (length (data lhs) <= length (data rhs))%nat ->
  (length (data lhs) <= length (data out))%nat ->
  exists s q,
    Subtract lhs rhs out = Ok s /\ Divide lhs rhs out = Ok q /\
    (shape s = shape out /\ dtype s = dtype out /\
     requires_grad s = requires_grad out /\ node s = node out /\
     length (data s) = length (data out)) /\
    (shape q = shape out /\ dtype q = dtype out /\
     requires_grad q = requires_grad out /\ node q = node out /\
     length (data q) = length (data out)) /\
    (forall (i : nat) l r,
       data lhs !! i = Some l -> data rhs !! i = Some r ->
       data s !! i = Some (n_sub (native (dtype lhs)) l r) /\
       data q !! i = Some (n_div (native (dtype lhs)) l r)) /\
    (forall i : nat, (length (data lhs) <= i)%nat ->
       data s !! i = data out !! i /\ data q !! i = data out !! i).
Proof.
  intros Hwf Hr Ho Hlr Hlo.
  unfold gradient_internal.Subtract, gradient_internal.Divide.
  rewrite same_native_true by assumption. cbv zeta.
  rewrite (wf_length lhs Hwf), !kernel_loop by lia. simpl.
  rewrite take_ge by lia.
  assert (Hz : forall op : spec_float -> spec_float -> spec_float,
             length (zip_with op (data lhs) (take (length (data lhs)) (data rhs)))
             = length (data lhs)).
  { intros op. rewrite length_zip_with, length_take. lia. }
  do 2 eexists. split; [reflexivity|]. split; [reflexivity|].
  split; [|split; [|split]].
  - repeat split. simpl. rewrite length_app, Hz, length_drop. lia.
  - repeat split. simpl. rewrite length_app, Hz, length_drop. lia.
  - intros i l r Hl Hri. pose proof (lookup_lt_Some _ _ _ Hl) as Hi. simpl.
    rewrite !lookup_app_l by (rewrite Hz; exact Hi).
    split; apply lookup_zip_with_both; try assumption;
      rewrite lookup_take_lt by exact Hi; exact Hri.
  - intros i Hi. simpl. rewrite !lookup_app_r by (rewrite Hz; exact Hi).
    rewrite !Hz, !lookup_drop.
    replace (length (data lhs) + (i - length (data lhs)))%nat with i by lia.
    split; reflexivity.
Qed.

(** [Subtract] and [Divide] check no size: when [rhs] or [out] holds fewer
    elements than [lhs.total_size()], the loop runs past the end of the
    shorter buffer, which is undefined behaviour, and no exception is
    thrown. *)
Theorem Subtract_Divide_short_buffer_undefined (lhs rhs out : Array) :
  array_wf lhs ->
  (length (data rhs) < length (data lhs) \/
   length (data out) < length (data lhs))%nat ->
  Subtract lhs rhs out = Undefined /\ Divide lhs rhs out = Undefined.
Proof.
  intros Hwf Hshort.
  unfold gradient_internal.Subtract, gradient_internal.Divide.
  destruct (same_native lhs rhs out); [|split; reflexivity]. cbv zeta.
  rewrite (wf_length lhs Hwf).
  change 0 with (Z.of_nat 0).
  rewrite !kernel_loop_short by (simpl; lia). split; reflexivity.
Qed.

(** [Set] writes one element: it keeps the shape, the dtype, the gradient
    flag, the node and the number of elements of the array, and [Get] at
    any other index returns what it returned before. *)
Theorem Set_changes_one_element (a : Array) (idx : Z) (v : Scalar) :
  supported (dtype a) = true -> array_wf a -> 0 <= idx < total_size a ->
  exists a',
    Set_ a idx v = Ok a' /\
    shape a' = shape a /\ dtype a' = dtype a /\
    requires_grad a' = requires_grad a /\ node a' = node a /\
    array_wf a' /\
    forall j : Z, j <> idx -> Get a' j = Get a j.
Proof.
  intros Hs Hwf Hidx.
  assert (Hk : (Z.to_nat idx < length (data a))%nat).
  { unfold array_wf in Hwf. lia. }
  pose proof (Set_spec other_ops a (Z.to_nat idx) v Hs Hk) as E.
  rewrite Z2Nat.id in E by lia.
  eexists. split; [exact E|]. repeat split.
  - unfold array_wf in *. simpl. rewrite length_insert.
    change (total_size (with_data a _)) with (total_size a). exact Hwf.
  - intros j Hj. unfold Get, load. simpl.
    destruct (j <? 0) eqn:Hneg; [reflexivity|].
    apply Z.ltb_ge in Hneg.
    rewrite list_lookup_insert_ne by lia. reflexivity.
Qed.

End KernelExtras.

(** * Further properties of [Identity] *)

Lemma index_cases {A} (v : list A) (i : Z) :
  index v i = Undefined \/
  exists x, index v i = Ok x /\ v !! Z.to_nat i = Some x.
Proof.
  unfold index. destruct (i <? 0); [left; reflexivity|].
  destruct (v !! Z.to_nat i) as [x|]; [right; eauto | left; reflexivity].
Qed.

Lemma MemoryCopy_cases (dst src : list spec_float) (n : Z) :
  MemoryCopy dst src n = Undefined \/ exists buf, MemoryCopy dst src n = Ok buf.
Proof.
  unfold MemoryCopy.
  destruct ((0 <=? n) && (n <=? Z.of_nat (length src))
            && (n <=? Z.of_nat (length dst)));
    [right; eauto | left; reflexivity].
Qed.

Section IdentityExtras.

Import gradient_internal.

Variable indeterminate : nat -> spec_float.

Local Abbreviation EmptyLike := (EmptyLike indeterminate).
Local Abbreviation Identity := (Identity indeterminate).

(** [Identity(inputs)] is a pass-through: it returns as many arrays as it
    is given, each with the shape, the dtype and the elements of its
    input; the node of the output of an input that requires a gradient is
    a new node produced by the one op node "identity", whose inputs are
    the nodes of all the inputs that require a gradient, in their
    order. *)
Theorem Identity_pass_through (ys : Arrays) :
  Forall array_wf ys ->
  exists outs,
    Identity ys = Ok outs /\ length outs = length ys /\
    forall i y, ys !! i = Some y ->
      exists o,
        outs !! i = Some o /\
        shape o = shape y /\ dtype o = dtype y /\ data o = data y /\
        (requires_grad y = true ->
         node o = mkArrayNode
                    (Some (mkOpNode "identity"
                             (map node (List.filter requires_grad ys))))
                    None).
Proof.
  intros Hwf. unfold gradient_internal.Identity, Identity_into.
  set (op_node := mkOpNode "identity" (map node (List.filter requires_grad ys))).
  set (ident_out := fun y : Array =>
         with_data (if requires_grad y
                    then with_node (EmptyLike y) (mkArrayNode (Some op_node) None)
                    else EmptyLike y) (data y)).
  match goal with |- exists outs, ofor 0 ?n ?body ?o0 = _ /\ _ =>
    destruct (ofor_inv
      (fun (k : nat) (outs : Arrays) =>
         outs = map ident_out (take k ys) ++ map EmptyLike (drop k ys))
      body n 0 o0) as (outs & Hrun & ->)
  end.
  - rewrite drop_0. reflexivity.
  - intros k outs Hk ->. rewrite Z.add_0_l.
    destruct (lookup_lt_is_Some_2 ys k Hk) as [y Hy].
    pose proof (proj1 (Forall_lookup _ _) Hwf k y Hy) as Hwy.
    assert (Hlen : length (map ident_out (take k ys)) = k).
    { rewrite length_map, length_take. lia. }
    assert (Ho : (map ident_out (take k ys) ++ map EmptyLike (drop k ys)) !! k
                 = Some (EmptyLike y)).
    { rewrite lookup_app_r by lia. rewrite Hlen, Nat.sub_diag.
      rewrite (drop_S _ _ _ Hy). reflexivity. }
    rewrite (index_nat _ _ _ Hy), (index_nat _ _ _ Ho). cbn [obind].
    assert (Hcopy : forall out : Array, data out = data (EmptyLike y) ->
              MemoryCopy (data out) (data y) (total_size y) = Ok (data y)).
    { intros out Hod. unfold MemoryCopy. rewrite Hod.
      rewrite (EmptyLike_length indeterminate y Hwy).
      unfold array_wf in Hwy. rewrite <- Hwy.
      destruct (Z.leb_spec 0 (Z.of_nat (length (data y)))); [|lia].
      rewrite Z.leb_refl. cbn [andb]. rewrite Nat2Z.id.
      rewrite take_ge by lia. rewrite drop_ge.
      - apply f_equal, app_nil_r.
      - simpl. rewrite length_map, length_seq. lia. }
    rewrite Hcopy by (destruct (requires_grad y); reflexivity). cbn [obind].
    unfold assign. destruct (Z.ltb_spec (Z.of_nat k) 0); [lia|].
    rewrite Nat2Z.id.
    destruct (Nat.ltb_spec k (length (map ident_out (take k ys)
                                        ++ map EmptyLike (drop k ys))));
      [|rewrite length_app, Hlen, length_map, length_drop in *; lia].
    eexists. split; [reflexivity|].
    rewrite insert_app_r_alt by lia. rewrite Hlen, Nat.sub_diag.
    rewrite (drop_S _ _ _ Hy). cbn [map]. simpl.
    rewrite (take_S_r _ _ _ Hy), map_app, <- app_assoc. reflexivity.
  - rewrite take_ge, drop_ge, app_nil_r in Hrun by lia.
    exists (map ident_out ys). split; [exact Hrun|].
    split; [apply length_map|].
    intros i y Hy. exists (ident_out y).
    split; [rewrite list_lookup_fmap, Hy; reflexivity|].
    subst ident_out. cbv beta.
    destruct (requires_grad y); repeat split; try reflexivity; discriminate.
Qed.

(** [Identity(inputs, outputs)] indexes [outputs] without a check: with
    fewer outputs than inputs it runs past the end of [outputs], which is
    undefined behaviour. *)
Theorem Identity_into_short_outputs (inputs outputs : Arrays) :
  (length outputs < length inputs)%nat ->
  Identity_into inputs outputs = Undefined.
Proof.
  intros Hshort. unfold Identity_into.
  match goal with |- ofor 0 ?n ?b _ = _ => set (body := b) end.
  assert (H : forall n start (outs : Arrays),
             (start <= length outs)%nat -> (length outs < start + n)%nat ->
             ofor (Z.of_nat start) n body outs = Undefined).
  { induction n as [|n IH]; intros start outs Hs Hn; [lia|].
    cbn [ofor].
    assert (Hb : body (Z.of_nat start) outs = Undefined \/
                 exists outs', body (Z.of_nat start) outs = Ok outs' /\
                               length outs' = length outs /\
                               (start < length outs)%nat).
    { subst body. cbv beta.
      destruct (index_cases inputs (Z.of_nat start)) as [->|(y & -> & _)];
        [left; reflexivity|]. cbn [obind].
      destruct (index_cases outs (Z.of_nat start)) as [->|(o & -> & Eo)];
        [left; reflexivity|]. cbn [obind].
      rewrite Nat2Z.id in Eo. apply lookup_lt_Some in Eo.
      match goal with |- context [MemoryCopy ?d ?s ?m] =>
        destruct (MemoryCopy_cases d s m) as [->|(buf & ->)]
      end; [left; reflexivity|].
      cbn [obind]. unfold assign.
      destruct (Z.ltb_spec (Z.of_nat start) 0); [lia|]. rewrite Nat2Z.id.
      destruct (Nat.ltb_spec start (length outs)); [|lia].
      right. eexists. split; [reflexivity|]. rewrite length_insert. lia. }
    destruct Hb as [->|(outs' & -> & Hl & Hlt)]; [reflexivity|].
    cbn [obind]. replace (Z.of_nat start + 1) with (Z.of_nat (S start)) by lia.
    apply IH; lia. }
  apply (H (length inputs) 0%nat outputs); lia.
Qed.

End IdentityExtras.

(** * Further properties of the numerical gradient *)

Lemma imap_const_replicate {A B} (c : B) (l : list A) :
  imap (fun _ _ => c) l = replicate (length l) c.
Proof.
  induction l as [|x l IH]; [reflexivity|].
  rewrite imap_cons. simpl. f_equal. exact IH.
Qed.

Lemma length_concat_imap {A B} (g : A -> nat) (l : list A) :
  forall f : nat -> A -> list B,
    (forall i x, length (f i x) = g x) ->
    length (concat (imap f l)) = sum_list (map g l).
Proof.
  induction l as [|x l IH]; intros f Hf; [reflexivity|].
  rewrite imap_cons. simpl. rewrite length_app, Hf. f_equal.
  apply IH. intros i y. apply Hf.
Qed.

Lemma sum_list_double {A} (g : A -> nat) (l : list A) :
  sum_list (map (fun x => (2 * g x)%nat) l) = (2 * sum_list (map g l))%nat.
Proof.
  induction l as [|a l IH]; [reflexivity|].
  change (sum_list (map (fun x => (2 * g x)%nat) (a :: l)))
    with (2 * g a + sum_list (map (fun x => (2 * g x)%nat) l))%nat.
  change (sum_list (map g (a :: l))) with (g a + sum_list (map g l))%nat.
  lia.
Qed.

Section GradientExtras.

Import gradient_internal.

Variable other_ops : nat -> NativeOps.
Variable indeterminate : nat -> spec_float.
Variable Scalar_add : Scalar -> Scalar -> Scalar.

Local Abbreviation native := (native other_ops).
Local Abbreviation nudge := (nudge other_ops).
Local Abbreviation perturbed := (perturbed other_ops Scalar_add).
Local Abbreviation central_difference :=
  (central_difference other_ops indeterminate Scalar_add).
Local Abbreviation calls_for_element := (calls_for_element other_ops Scalar_add).
Local Abbreviation eval := (eval other_ops Scalar_add).
Local Abbreviation CalculateNumericalGradient :=
  (CalculateNumericalGradient other_ops indeterminate Scalar_add).

(** With no input, [CalculateNumericalGradient] returns no gradient,
    whatever the other arguments are, and never invokes [func]: when eps
    arrays are given their number is refused, and with no eps array the
    checks pass and the function reads [inputs[0].dtype()] of an empty
    vector, which is undefined behaviour. *)
Theorem no_inputs_never_returns (func : Arrays -> Arrays)
    (grad_outputs eps : Arrays) (t : Trace) :
  CalculateNumericalGradient func [] grad_outputs eps t
  = (match eps with
     | [] => Undefined
     | _ :: _ => Throw (XchainerError "Invalid number of eps arrays")
     end, t).
Proof.
  destruct eps as [|e eps]; [reflexivity|].
  unfold gradient_internal.CalculateNumericalGradient.
  change (size_of_int (int_of_size (length (@nil Array)))) with 0.
  replace (Z.of_nat (length (e :: eps)) =? 0) with false; [reflexivity|].
  symmetry. apply Z.eqb_neq. simpl length. lia.
Qed.

(** With no output gradient, the numerical gradient of every input is the
    zero array like the input: the loop over the outputs adds nothing.
    [func] is still evaluated twice for each element. *)
Theorem no_grad_outputs_zero_gradient (func : Arrays -> Arrays)
    (inputs eps : Arrays) (x0 : Array) (t : Trace) :
  Z.of_nat (length inputs) < 2 ^ 31 ->
  length eps = length inputs ->
  (forall i, eps_matches inputs eps i) ->
  Forall array_wf inputs -> Forall array_wf eps ->
  Forall (fun x => supported (dtype x) = true) inputs ->
  inputs !! 0%nat = Some x0 ->
  exists grads,
    CalculateNumericalGradient func inputs [] eps t
    = (Ok grads, t ++ all_calls other_ops Scalar_add inputs eps (dtype x0)) /\
    length grads = length inputs /\
    forall i x, inputs !! i = Some x ->
      exists g, grads !! i = Some g /\ shape g = shape x /\ dtype g = dtype x /\
                data g = replicate (length (data x)) num_zero.
Proof.
  intros Hfi Hlen Hm Hwi Hwe Hsup H0.
  rewrite (CalculateNumericalGradient_run other_ops indeterminate Scalar_add
             func inputs [] eps (fun _ _ _ => mkScalar num_zero kFloat32) x0 t);
    try assumption; [|reflexivity|simpl; intros; lia].
  eexists. split; [reflexivity|]. split; [apply length_imap|].
  intros i x Hx. eexists. split; [rewrite list_lookup_imap, Hx; reflexivity|].
  split; [reflexivity|]. split; [reflexivity|].
  simpl. apply imap_const_replicate.
Qed.

(** A run of [CalculateNumericalGradient] that completes evaluates [func]
    twice for every element of every input, and no more: the trace grows
    by twice the total number of elements of the inputs. *)
Theorem two_evaluations_per_element (func : Arrays -> Arrays)
    (inputs grad_outputs eps : Arrays) (G : nat -> nat -> nat -> Scalar)
    (x0 : Array) (t : Trace) :
  Z.of_nat (length inputs) < 2 ^ 31 ->
  Z.of_nat (length grad_outputs) < 2 ^ 31 ->
  length eps = length inputs ->
  (forall i, eps_matches inputs eps i) ->
  Forall array_wf inputs -> Forall array_wf eps ->
  Forall (fun x => supported (dtype x) = true) inputs ->
  inputs !! 0%nat = Some x0 ->
  (forall i x e k v j,
     inputs !! i = Some x -> eps !! i = Some e -> data e !! k = Some v ->
     (j < length grad_outputs)%nat ->
     central_difference func inputs grad_outputs (dtype x0) i k e
                        (mkScalar v (dtype e)) j = Ok (G i k j)) ->
  length (snd (CalculateNumericalGradient func inputs grad_outputs eps t))
  = (length t + 2 * sum_list (map (fun x => length (data x)) inputs))%nat.
Proof.
  intros Hfi Hfo Hlen Hm Hwi Hwe Hsup H0 HG.
  rewrite (CalculateNumericalGradient_run other_ops indeterminate Scalar_add
             func inputs grad_outputs eps G x0 t) by assumption.
  cbn [snd]. rewrite length_app. f_equal.
  unfold all_calls.
  transitivity (sum_list (map (fun e : Array => (2 * length (data e))%nat) eps)).
  - apply (length_concat_imap (B := list Array)
             (fun e : Array => (2 * length (data e))%nat) eps).
    intros i e. unfold calls_for_input.
    transitivity (sum_list (map (fun _ : spec_float => 2%nat) (data e))).
    + apply (length_concat_imap (B := list Array)
               (fun _ : spec_float => 2%nat) (data e)).
      intros k v. reflexivity.
    + clear. induction (data e) as [|v l IH]; simpl; lia.
  - assert (Hsame : map (fun e : Array => (2 * length (data e))%nat) eps
                    = map (fun x : Array => (2 * length (data x))%nat) inputs).
    { apply list_eq. intros i. rewrite !list_lookup_fmap.
      destruct (inputs !! i) as [x|] eqn:Hx, (eps !! i) as [e|] eqn:He; simpl.
      - destruct (Hm i x e Hx He) as [Hsh _].
        pose proof (proj1 (Forall_lookup _ _) Hwi i x Hx) as Hwx.
        pose proof (proj1 (Forall_lookup _ _) Hwe i e He) as Hwee.
        unfold array_wf, total_size in *. rewrite Hsh in Hwx.
        f_equal. lia.
      - apply lookup_lt_Some in Hx. apply lookup_ge_None in He. lia.
      - apply lookup_lt_Some in He. apply lookup_ge_None in Hx. lia.
      - reflexivity. }
    rewrite Hsame. apply sum_list_double.
Qed.

Lemma mfor_S {St : Type} (start : Z) (n : nat) (body : Z -> St -> M St)
    (s : St) (t : Trace) :
  mfor start (S n) body s t
  = bind (body start s) (fun s' => mfor (start + 1) n body s') t.
Proof. reflexivity. Qed.

(** The loop that checks [eps] stops at the first index where [eps[i]]
    differs from [inputs[i]], with the message of the shape when the
    shapes differ and of the dtype otherwise. *)
Lemma validation_first_mismatch (inputs eps : Arrays) (t : Trace)
    (i : nat) (x e : Array) (n : nat) :
  inputs !! i = Some x -> eps !! i = Some e ->
  (shape x <> shape e \/ dtype x <> dtype e) ->
  length eps = length inputs ->
  forall start : nat,
    (start <= i < start + n)%nat ->
    (forall j, (start <= j < i)%nat -> eps_matches inputs eps j) ->
    mfor (Z.of_nat start) n
      (fun i _ =>
         x <- lift (at_ inputs i) ;;
         e <- lift (at_ eps i) ;;
         if negb (shape_eqb (shape x) (shape e))
         then throw (XchainerError "Invalid eps shape")
         else if negb (Dtype_eqb (dtype x) (dtype e))
         then throw (XchainerError "Invalid eps dtype")
         else ret tt)
      tt t
    = (Throw (XchainerError (if decide (shape x = shape e)
                             then "Invalid eps dtype"
                             else "Invalid eps shape")), t).
Proof.
  intros Hx He Hbad Hlen.
  match goal with |- forall start, _ -> _ -> mfor _ _ ?b _ _ = _ =>
    set (body := b) end.
  induction n as [|n IH]; intros start Hi Hbefore; [lia|].
  rewrite mfor_S.
  destruct (decide (start = i)) as [->|Hne].
  - apply bind_throw. subst body. cbv beta.
    rewrite (bind_lift_eq _ _ _ _ (at_nat _ _ _ Hx)).
    rewrite (bind_lift_eq _ _ _ _ (at_nat _ _ _ He)).
    unfold shape_eqb. destruct (decide (shape x = shape e)) as [Hs|Hs];
      cbn [negb]; [|reflexivity].
    destruct (Dtype_eqb (dtype x) (dtype e)) eqn:Hd; cbn [negb]; [|reflexivity].
    apply Dtype_eqb_eq in Hd. destruct Hbad; contradiction.
  - pose proof (lookup_lt_Some _ _ _ Hx) as Hli.
    destruct (lookup_lt_is_Some_2 inputs start ltac:(lia)) as [x' Hx'].
    destruct (lookup_lt_is_Some_2 eps start ltac:(lia)) as [e' He'].
    destruct (Hbefore start ltac:(lia) x' e' Hx' He') as [Hs' Hd'].
    assert (Hb : body (Z.of_nat start) tt t = (Ok tt, t)).
    { subst body. cbv beta.
      rewrite (bind_lift_eq _ _ _ _ (at_nat _ _ _ Hx')).
      rewrite (bind_lift_eq _ _ _ _ (at_nat _ _ _ He')).
      unfold shape_eqb. rewrite Hs', Hd', Dtype_eqb_refl.
      destruct (decide (shape e' = shape e')); [reflexivity|contradiction]. }
    rewrite (bind_eq _ _ _ _ _ Hb).
    replace (Z.of_nat start + 1) with (Z.of_nat (S start)) by lia.
    apply IH; [lia|]. intros j Hj. apply Hbefore. lia.
Qed.

(** When as many [eps] arrays as inputs are given, the error of
    [CalculateNumericalGradient] is decided by the first index [i] at
    which [eps[i]] differs from [inputs[i]]: "Invalid eps shape" when the
    shapes differ there, since the shape is compared first, and "Invalid
    eps dtype" when only the dtypes differ.  [func] was not invoked. *)
Theorem first_eps_mismatch_decides_message (func : Arrays -> Arrays)
    (inputs grad_outputs eps : Arrays) (t : Trace) (i : nat) (x e : Array) :
  Z.of_nat (length inputs) < 2 ^ 31 ->
  length eps = length inputs ->
  (forall j, (j < i)%nat -> eps_matches inputs eps j) ->
  inputs !! i = Some x -> eps !! i = Some e ->
  (shape x <> shape e \/ dtype x <> dtype e) ->
  CalculateNumericalGradient func inputs grad_outputs eps t
  = (Throw (XchainerError (if decide (shape x = shape e)
                           then "Invalid eps dtype"
                           else "Invalid eps shape")), t).
Proof.
  intros Hfi Hlen Hbefore Hx He Hbad.
  unfold gradient_internal.CalculateNumericalGradient. cbv zeta.
  rewrite (int_of_size_fits (length inputs)) by assumption.
  rewrite Nat2Z.id. unfold size_of_int. rewrite Z.mod_small by lia.
  rewrite Hlen, Z.eqb_refl. cbn [negb].
  apply bind_throw.
  apply (validation_first_mismatch inputs eps t i x e (length inputs)
           Hx He Hbad Hlen 0%nat).
  - pose proof (lookup_lt_Some _ _ _ Hx). lia.
  - intros j Hj. apply Hbefore. lia.
Qed.

(** When [func] returns no output although an output gradient was given,
    [CalculateNumericalGradient] throws [std::out_of_range] from
    [ys1.at(0)] at the first element of the first input, after the two
    evaluations of [func] for that element. *)
Theorem too_few_outputs_out_of_range (func : Arrays -> Arrays)
    (inputs grad_outputs eps : Arrays) (x0 e0 : Array) (old v : spec_float)
    (t : Trace) :
  Z.of_nat (length inputs) < 2 ^ 31 ->
  Z.of_nat (length grad_outputs) < 2 ^ 31 ->
  length eps = length inputs ->
  (forall i, eps_matches inputs eps i) ->
  inputs !! 0%nat = Some x0 -> eps !! 0%nat = Some e0 ->
  array_wf x0 -> array_wf e0 -> supported (dtype x0) = true ->
  data x0 !! 0%nat = Some old -> data e0 !! 0%nat = Some v ->
  grad_outputs <> [] ->
  func (perturbed inputs 0 0
          (nudge (dtype x0) (mkScalar v (dtype e0)) (to_float num_one))) = [] ->
  CalculateNumericalGradient func inputs grad_outputs eps t
  = (Throw out_of_range,
     t ++ calls_for_element inputs (dtype x0) 0 0 (mkScalar v (dtype e0))).
Proof.
  intros Hfi Hfo Hlen Hm H0 He0 Hwx Hwe Hs Hold Hv Hgo Hfunc.
  destruct (Hm 0%nat x0 e0 H0 He0) as [Hsh Hdt].
  assert (Hse : supported (dtype e0) = true) by (rewrite <- Hdt; exact Hs).
  unfold gradient_internal.CalculateNumericalGradient. cbv zeta.
  rewrite !int_of_size_fits by assumption. rewrite !Nat2Z.id.
  unfold size_of_int. rewrite Z.mod_small by lia.
  rewrite Hlen, Z.eqb_refl. cbn [negb].
  destruct (validation_loop inputs eps t (length inputs) 0 ltac:(lia) Hlen)
    as [[Hval _]|(msg & _ & _ & i & _ & Hno)]; [|exfalso; exact (Hno (Hm i))].
  change (Z.of_nat 0) with 0 in Hval.
  rewrite (bind_eq _ _ _ _ _ Hval).
  rewrite (bind_lift_eq _ _ _ _ (index_nat inputs 0 x0 H0)).
  destruct (length inputs) as [|nin] eqn:Hnin;
    [apply lookup_lt_Some in H0; lia|].
  rewrite mfor_S. apply bind_throw.
  assert (Hat : at_ inputs 0 = Ok x0) by exact (at_nat inputs 0 x0 H0).
  rewrite (bind_lift_eq _ _ _ _ Hat).
  change (total_size (ZerosLike x0)) with (total_size x0).
  rewrite (wf_length x0 Hwx). apply bind_throw.
  destruct (length (data x0)) as [|m] eqn:Hm0;
    [apply lookup_lt_Some in Hold; lia|].
  rewrite mfor_S. apply bind_throw.
  assert (Hate : at_ eps 0 = Ok e0) by exact (at_nat eps 0 e0 He0).
  assert (Hget : Get e0 0 = Ok (mkScalar v (dtype e0)))
    by exact (Get_spec e0 0 v Hse Hv).
  rewrite (bind_lift_eq _ _ _ _ Hate), (bind_lift_eq _ _ _ _ Hget).
  assert (Hev : forall m0 t0,
             eval func inputs (dtype x0) 0 0 (mkScalar v (dtype e0)) m0 t0
             = (Ok (func (perturbed inputs 0 0
                            (nudge (dtype x0) (mkScalar v (dtype e0)) m0))),
                t0 ++ [perturbed inputs 0 0
                         (nudge (dtype x0) (mkScalar v (dtype e0)) m0)])).
  { intros m0 t0.
    exact (eval_spec other_ops Scalar_add func inputs (dtype x0) 0 0 x0 old
             _ m0 t0 H0 Hs Hold). }
  rewrite (bind_eq _ _ _ _ _ (Hev _ _)), (bind_eq _ _ _ _ _ (Hev _ _)).
  rewrite (bind_lift_eq _ _ _ _ Hget).
  destruct (denominator_Ok other_ops indeterminate (dtype x0) e0
              (mkScalar v (dtype e0)) Hwe) as [dn Hdn].
  rewrite (bind_lift_eq _ _ _ _ Hdn).
  destruct grad_outputs as [|g0 gos]; [contradiction|].
  cbn [length]. rewrite mfor_S. rewrite Hfunc.
  unfold calls_for_element, gradient_internal.calls_for_element.
  rewrite <- app_assoc. reflexivity.
Qed.

(** [eval] invokes [func] exactly when it succeeds, and then once, on as
    many arrays as there are inputs: a failure of [eval] (an input index
    outside of the inputs, an unsupported dtype, a flat index outside of
    the buffer) leaves the trace as it was. *)
Theorem eval_invokes_func_once_or_fails (func : Arrays -> Arrays)
    (inputs : Arrays) (dtype0 : Dtype) (i_in in_flat_index : Z)
    (eps_scalar : Scalar) (multiplier : spec_float) (t : Trace) :
  match eval func inputs dtype0 i_in in_flat_index eps_scalar multiplier t with
  | (Ok ys, t') =>
      exists xs, t' = t ++ [xs] /\ ys = func xs /\ length xs = length inputs
  | (_, t') => t' = t
  end.
Proof.
  unfold gradient_internal.eval, bind, lift, call.
  destruct (at_ (map Array_copy inputs) i_in) as [x| | |]; try reflexivity.
  destruct (Get x in_flat_index) as [cur| | |]; try reflexivity.
  destruct (Set_ x in_flat_index _) as [x'| | |]; try reflexivity.
  eexists. split; [reflexivity|]. split; [reflexivity|].
  rewrite length_insert, length_map. reflexivity.
Qed.

(** The input set [eval] gives to [func] differs from the caller's inputs
    in one element of one array: every array has the shape, the dtype and
    the number of elements of its original, and every element other than
    element [k] of input [i] is the element of the original. *)
Theorem eval_perturbs_one_element (func : Arrays -> Arrays) (inputs : Arrays)
    (dtype0 : Dtype) (i k : nat) (x : Array) (old : spec_float)
    (eps_scalar : Scalar) (m : spec_float) (t : Trace) :
  inputs !! i = Some x -> supported (dtype x) = true -> data x !! k = Some old ->
  exists xs,
    eval func inputs dtype0 (Z.of_nat i) (Z.of_nat k) eps_scalar m t
    = (Ok (func xs), t ++ [xs]) /\
    length xs = length inputs /\
    forall i' y, inputs !! i' = Some y ->
      exists y',
        xs !! i' = Some y' /\ shape y' = shape y /\ dtype y' = dtype y /\
        length (data y') = length (data y) /\
        forall k', (i' <> i \/ k' <> k) -> data y' !! k' = data y !! k'.
Proof.
  intros Hi Hs Hk.
  rewrite (eval_spec other_ops Scalar_add func inputs dtype0 i k x old
             eps_scalar m t Hi Hs Hk).
  eexists. split; [reflexivity|].
  unfold gradient_internal.perturbed.
  split; [rewrite length_alter, length_map; reflexivity|].
  intros i' y Hy.
  destruct (decide (i' = i)) as [->|Hne].
  - assert (y = x) by congruence. subst y.
    eexists. split; [rewrite list_lookup_alter_eq, list_lookup_fmap, Hi;
                     reflexivity|].
    unfold gradient_internal.nudged. simpl.
    split; [reflexivity|]. split; [reflexivity|].
    split; [apply length_alter|].
    intros k' [Hc|Hc]; [contradiction|].
    apply list_lookup_alter_ne. congruence.
  - exists (Array_copy y).
    split; [rewrite list_lookup_alter_ne by congruence;
            rewrite list_lookup_fmap, Hy; reflexivity|].
    repeat split; reflexivity.
Qed.

(** For a function whose outputs, like the inputs, the eps arrays and the
    output gradients, all have one supported dtype [d] and [n] elements
    (an elementwise function on arrays of one shape), the run completes
    and element [k] of gradient [i] is, accumulated over the outputs [j]
    from zero, the sum over the elements [m] of
    [(ys1[j][m] - ys0[j][m]) / (eps[i][k] * 2) * gradOutputs[j][m]],
    computed in the arithmetic of [d]; [ys0] and [ys1] are the outputs for
    the input set perturbed by the [float] rounding of [eps[i][k]] times
    [-1] and [+1]. *)
Theorem elementwise_numerical_gradient (func : Arrays -> Arrays)
    (inputs grad_outputs eps : Arrays) (d : Dtype) (n : nat) (x0 : Array)
    (t : Trace) :
  Z.of_nat (length inputs) < 2 ^ 31 ->
  Z.of_nat (length grad_outputs) < 2 ^ 31 ->
  length eps = length inputs ->
  supported d = true ->
  (forall i x, inputs !! i = Some x ->
     array_wf x /\ dtype x = d /\ length (data x) = n) ->
  (forall i x e, inputs !! i = Some x -> eps !! i = Some e ->
     array_wf e /\ shape e = shape x /\ dtype e = d) ->
  (forall j g, grad_outputs !! j = Some g -> dtype g = d /\ length (data g) = n) ->
  (forall i k p j, (j < length grad_outputs)%nat ->
     exists y, func (perturbed inputs i k p) !! j = Some y /\
               array_wf y /\ dtype y = d /\ length (data y) = n) ->
  inputs !! 0%nat = Some x0 ->
  let T := native d in
  let elements (ys : Arrays) (j : nat) : list spec_float :=
    from_option data [] (ys !! j) in
  let contribution (i k : nat) (v : spec_float) (j : nat) : Scalar :=
    let ys0 := func (perturbed inputs i k
                       (nudge d (mkScalar v d) (to_float num_minus_one))) in
    let ys1 := func (perturbed inputs i k
                       (nudge d (mkScalar v d) (to_float num_one))) in
    let two_e := n_mul T (n_cast T v) (n_cast T (n_cast T num_two)) in
    mkScalar
      (fold_left (n_add T)
         (zip_with (n_mul T)
            (zip_with (n_div T)
               (zip_with (n_sub T) (elements ys1 j) (elements ys0 j))
               (replicate n two_e))
            (elements grad_outputs j))
         num_zero)
      d in
  exists grads t',
    CalculateNumericalGradient func inputs grad_outputs eps t = (Ok grads, t') /\
    length grads = length inputs /\
    forall i x e k v,
      inputs !! i = Some x -> eps !! i = Some e -> data e !! k = Some v ->
      exists g,
        grads !! i = Some g /\ shape g = shape x /\ dtype g = d /\
        data g !! k
        = Some (accumulate other_ops Scalar_add d
                  (map (contribution i k v) (seq 0 (length grad_outputs)))).
Proof.
  intros Hfi Hfo Hlen Hs Hin Heps Hgo Hf H0 T elements contribution.
  destruct (Hin 0%nat x0 H0) as (_ & Hd0 & _).
  set (dflt := mkScalar num_zero d).
  set (G := fun (i k j : nat) =>
              match eps !! i with
              | Some e => match data e !! k with
                          | Some v => contribution i k v j
                          | None => dflt
                          end
              | None => dflt
              end).
  assert (Hlene : forall i x e, inputs !! i = Some x -> eps !! i = Some e ->
                                length (data e) = n).
  { intros i x e Hx He. destruct (Hin i x Hx) as (Hwx & _ & Hlx).
    destruct (Heps i x e Hx He) as (Hwe & Hsh & _).
    unfold array_wf, total_size in *. rewrite Hsh in Hwe. lia. }
  assert (HG : forall i x e k v j,
             inputs !! i = Some x -> eps !! i = Some e -> data e !! k = Some v ->
             (j < length grad_outputs)%nat ->
             central_difference func inputs grad_outputs (dtype x0) i k e
                                (mkScalar v (dtype e)) j = Ok (G i k j)).
  { intros i x e k v j Hx He Hv Hj.
    destruct (Heps i x e Hx He) as (Hwe & Hsh & Hde).
    pose proof (Hlene i x e Hx He) as Hle.
    subst G. cbv beta. rewrite He, Hv. rewrite Hd0, Hde.
    unfold gradient_internal.central_difference, gradient_internal.contribution.
    cbv zeta. unfold gradient_internal.denominator.
    rewrite (operator_mul_spec other_ops indeterminate);
      [|apply FullLike_wf; exact Hwe|reflexivity
       |simpl; rewrite !length_replicate; reflexivity].
    cbn [obind].
    destruct (Hf i k (nudge d (mkScalar v d) (to_float num_one)) j Hj)
      as (y1 & Hy1 & Hw1 & Hd1 & Hl1).
    destruct (Hf i k (nudge d (mkScalar v d) (to_float num_minus_one)) j Hj)
      as (y0 & Hy0 & Hw0 & Hdy0 & Hl0).
    destruct (lookup_lt_is_Some_2 grad_outputs j Hj) as [gout Hgout].
    destruct (Hgo j gout Hgout) as (Hdg & Hlg).
    rewrite (projected_quotient_elementwise other_ops indeterminate _ _ _ _ j
               y0 y1 gout Hy1 Hy0 Hgout Hw1);
      try congruence;
      [|simpl; rewrite Hde; congruence
       |simpl; rewrite length_zip_with, !length_replicate;
        unfold array_wf in Hwe; lia].
    subst contribution elements T. cbv beta zeta.
    rewrite Hy1, Hy0, Hgout. cbn [from_option]. rewrite Hd1.
    simpl. rewrite Hde, zip_with_replicate.
    unfold array_wf in Hwe. rewrite <- Hwe, Nat2Z.id, Hle. reflexivity. }
  rewrite (CalculateNumericalGradient_run other_ops indeterminate Scalar_add
             func inputs grad_outputs eps G x0 t); try assumption.
  - do 2 eexists. split; [reflexivity|]. split; [apply length_imap|].
    intros i x e k v Hx He Hv.
    destruct (Hin i x Hx) as (Hwx & Hdx & Hlx).
    pose proof (Hlene i x e Hx He) as Hle.
    pose proof (lookup_lt_Some _ _ _ Hv) as Hk.
    destruct (lookup_lt_is_Some_2 (data x) k ltac:(lia)) as [old Hold].
    eexists. split; [rewrite list_lookup_imap, Hx; reflexivity|].
    split; [reflexivity|]. split; [exact Hdx|].
    simpl. rewrite list_lookup_imap, Hold. simpl. rewrite Hdx.
    subst G. cbv beta. rewrite He, Hv. reflexivity.
  - intros i x e Hx He. destruct (Heps i x e Hx He) as (_ & Hsh & Hde).
    destruct (Hin i x Hx) as (_ & Hdx & _). split; congruence.
  - apply Forall_lookup. intros i x Hx. apply (Hin i x Hx).
  - apply Forall_lookup. intros i e He.
    destruct (lookup_lt_is_Some_2 inputs i) as [x Hx];
      [apply lookup_lt_Some in He; lia|].
    apply (Heps i x e Hx He).
  - apply Forall_lookup. intros i x Hx. simpl.
    destruct (Hin i x Hx) as (_ & -> & _). exact Hs.
Qed.

End GradientExtras.

(** * Further properties of the backward check *)

Lemma transform_Ok_all {A B} (f : A -> Outcome B) (v : list A) :
  (forall x, x ∈ v -> exists y, f x = Ok y) ->
  exists l, gradient_internal.transform f v = Ok l.
Proof.
  induction v as [|x v IH]; intros H; [eexists; reflexivity|].
  destruct (H x ltac:(left)) as [y Hy].
  destruct IH as [l Hl]; [intros z Hz; apply H; right; exact Hz|].
  simpl. rewrite Hy. simpl. rewrite Hl. eexists. reflexivity.
Qed.

Section BackwardExtras.

Import gradient_internal.

Variable other_ops : nat -> NativeOps.
Variable indeterminate : nat -> spec_float.
Variable Scalar_add : Scalar -> Scalar -> Scalar.
Variable AllClose : Array -> Array -> spec_float -> spec_float -> bool.
Variable Backward : Array -> Outcome (Array -> option Array).
Variable missing_gradient : Exn.

Local Abbreviation Identity := (Identity indeterminate).
Local Abbreviation CalculateNumericalGradient :=
  (CalculateNumericalGradient other_ops indeterminate Scalar_add).
Local Abbreviation deref_grad := (deref_grad missing_gradient).
Local Abbreviation CheckBackwardComputation :=
  (CheckBackwardComputation other_ops indeterminate Scalar_add AllClose Backward
     missing_gradient).

(** The loop that seeds the gradients of the outputs succeeds when there
    are as many output gradients as outputs. *)
Lemma seeding_Ok (outs grad_outputs : Arrays) :
  length outs = length grad_outputs ->
  exists outs',
    ofor 0 (length outs)
      (fun i outputs =>
         out <~ index outputs i ;;
         g <~ index grad_outputs i ;;
         assign outputs i (with_node out (set_grad (node out) g)))
      outs = Ok outs' /\
    length outs' = length outs.
Proof.
  intros Hlen.
  match goal with |- exists outs', ofor 0 ?n ?body ?o0 = _ /\ _ =>
    destruct (ofor_inv
      (fun (_ : nat) (o : Arrays) => length o = length outs)
      body n 0 o0) as (outs' & Hrun & Hinv)
  end.
  - reflexivity.
  - intros k o Hk Ho. rewrite Z.add_0_l.
    destruct (lookup_lt_is_Some_2 o k ltac:(lia)) as [out Hout].
    destruct (lookup_lt_is_Some_2 grad_outputs k ltac:(lia)) as [g Hg].
    rewrite (index_nat _ _ _ Hout), (index_nat _ _ _ Hg). cbn [obind].
    unfold assign. destruct (Z.ltb_spec (Z.of_nat k) 0); [lia|].
    rewrite Nat2Z.id. destruct (Nat.ltb_spec k (length o)); [|lia].
    eexists. split; [reflexivity|]. rewrite length_insert. exact Ho.
  - exists outs'. split; assumption.
Qed.

(** With well-formed outputs, as many output gradients as outputs and at
    least one output, [CheckBackwardComputation] evaluates [func] once and
    reaches [Backward(outputs[0])]. *)
Lemma check_reaches_backward (func : Arrays -> Arrays)
    (inputs grad_outputs eps : Arrays) (atol rtol : spec_float) (t : Trace) :
  Forall array_wf (func inputs) ->
  length (func inputs) = length grad_outputs ->
  func inputs <> [] ->
  exists root,
    CheckBackwardComputation func inputs grad_outputs eps atol rtol t
    = (stored <- lift (Backward root) ;;
       backward_grads <- lift (transform deref_grad
                                 (map (after_backward stored) inputs)) ;;
       numerical_grads <- CalculateNumericalGradient func
                            (map (after_backward stored) inputs)
                            grad_outputs eps ;;
       mfor 0 (length backward_grads)
         (fun i _ =>
            b <- lift (index backward_grads i) ;;
            n <- lift (index numerical_grads i) ;;
            if negb (AllClose b n atol rtol)
            then throw (AssertionError "too large errors")
            else ret tt)
         tt) (t ++ [inputs]).
Proof.
  intros Hwf Hcount Hne.
  destruct (Identity_Ok indeterminate (func inputs) Hwf) as (outs & Hid & Hlen).
  destruct (seeding_Ok outs grad_outputs ltac:(lia)) as (outs' & Hseed & Hlen').
  destruct (lookup_lt_is_Some_2 outs' 0) as [root Hroot].
  { destruct (func inputs); [contradiction|]. simpl in *. lia. }
  exists root.
  unfold gradient_internal.CheckBackwardComputation.
  unfold bind at 1. unfold call.
  rewrite (bind_lift_eq _ _ _ _ Hid).
  destruct (Nat.eqb_spec (length outs) (length grad_outputs)) as [_|Hx]; [|lia].
  cbn [negb]. cbv zeta.
  rewrite (bind_lift_eq _ _ _ _ Hseed).
  rewrite (bind_lift_eq _ _ _ _ (index_nat outs' 0 root Hroot)).
  reflexivity.
Qed.

(** A failure of the differentiation engine is the failure of
    [CheckBackwardComputation]: the exception of [Backward] propagates,
    after the one evaluation of [func] and before any numerical
    gradient. *)
Theorem backprop_failure_propagates (func : Arrays -> Arrays)
    (inputs grad_outputs eps : Arrays) (atol rtol : spec_float) (t : Trace)
    (e : Exn) :
  Forall array_wf (func inputs) ->
  length (func inputs) = length grad_outputs ->
  func inputs <> [] ->
  (forall root, Backward root = Throw e) ->
  CheckBackwardComputation func inputs grad_outputs eps atol rtol t
  = (Throw e, t ++ [inputs]).
Proof.
  intros Hwf Hcount Hne Hb.
  destruct (check_reaches_backward func inputs grad_outputs eps atol rtol t
              Hwf Hcount Hne) as (root & ->).
  apply bind_throw. unfold lift. rewrite Hb. reflexivity.
Qed.

(** When [func] returns no output and no output gradient is given, the
    counts agree and [CheckBackwardComputation] passes [outputs[0]] of an
    empty vector to [Backward]: undefined behaviour, after the one
    evaluation of [func]. *)
Theorem no_outputs_undefined (func : Arrays -> Arrays) (inputs eps : Arrays)
    (atol rtol : spec_float) (t : Trace) :
  func inputs = [] ->
  CheckBackwardComputation func inputs [] eps atol rtol t
  = (Undefined, t ++ [inputs]).
Proof.
  intros Hf. unfold gradient_internal.CheckBackwardComputation.
  unfold bind at 1. unfold call. rewrite Hf. reflexivity.
Qed.

(** In [CheckBackwardComputation] a wrong number of [eps] arrays is found
    late: the error "Invalid number of eps arrays" of the numerical
    gradient is thrown after [func] was evaluated once and backprop has
    run and stored a gradient on every input. *)
Theorem eps_count_checked_after_backprop (func : Arrays -> Arrays)
    (inputs grad_outputs eps : Arrays) (atol rtol : spec_float) (t : Trace)
    (stored : Array -> option Array) :
  Forall array_wf (func inputs) ->
  length (func inputs) = length grad_outputs ->
  func inputs <> [] ->
  (forall root, Backward root = Ok stored) ->
  (forall x, x ∈ inputs -> stored x <> None) ->
  Z.of_nat (length inputs) < 2 ^ 31 ->
  length eps <> length inputs ->
  CheckBackwardComputation func inputs grad_outputs eps atol rtol t
  = (Throw (XchainerError "Invalid number of eps arrays"), t ++ [inputs]).
Proof.
  intros Hwf Hcount Hne Hb Hall Hfi Hlen.
  destruct (check_reaches_backward func inputs grad_outputs eps atol rtol t
              Hwf Hcount Hne) as (root & ->).
  rewrite (bind_lift_eq _ _ _ _ (Hb root)).
  destruct (transform_Ok_all deref_grad (map (after_backward stored) inputs))
    as [bgs Hbgs].
  { intros y Hy. apply list_elem_of_fmap in Hy as (x & -> & Hx).
    unfold deref_grad, after_backward. simpl.
    destruct (stored x) eqn:Hsx; [eauto|]. exfalso. exact (Hall x Hx Hsx). }
  rewrite (bind_lift_eq _ _ _ _ Hbgs).
  apply bind_throw.
  unfold gradient_internal.CalculateNumericalGradient. cbv zeta.
  rewrite length_map.
  rewrite (int_of_size_fits (length inputs)) by assumption.
  unfold size_of_int. rewrite Z.mod_small by lia.
  destruct (Z.eqb_spec (Z.of_nat (length eps)) (Z.of_nat (length inputs)));
    [lia|reflexivity].
Qed.

End BackwardExtras.

(** * [Norm] is not negative *)

Lemma binary_round_aux_not_negative (prec emax mx ex : Z) (lx : location) :
  not_negative (binary_round_aux prec emax false mx ex lx).
Proof.
  unfold binary_round_aux.
  destruct (shr_fexp prec emax mx ex lx) as [mrs' e'].
  destruct (shr_fexp prec emax _ e' loc_Exact) as [mrs'' e''].
  destruct (shr_m mrs''); simpl; try exact I.
  destruct (e'' <=? emax - prec); exact I.
Qed.

Lemma SFsqrt_not_negative (prec emax : Z) (x : spec_float) :
  not_negative (SFsqrt prec emax x).
Proof.
  destruct x as [s|[|]| |[|] m e]; simpl; try exact I.
  destruct (SFsqrt_core_binary prec emax (Z.pos m) e) as [[mz ez] lz].
  apply binary_round_aux_not_negative.
Qed.

Lemma SFround_not_negative (prec emax : Z) (x : spec_float) :
  not_negative x -> not_negative (SFround prec emax x).
Proof.
  destruct x as [s|s| |[|] m e]; simpl; intros H; try exact H;
    try contradiction.
  unfold binary_round.
  destruct (shl_align m e _) as [mz ez].
  apply binary_round_aux_not_negative.
Qed.

Section NormExtras.

Import gradient_internal.

Variable other_ops : nat -> NativeOps.
Variable indeterminate : nat -> spec_float.

Local Abbreviation Norm := (Norm other_ops indeterminate).

(** Whenever [Norm] returns for an array of a supported dtype, the value
    is not negative: it is a zero, a positive number, plus infinity or
    NaN, whatever the elements of the array are. *)
Theorem Norm_not_negative (x : Array) (r : Scalar) :
  supported (dtype x) = true -> Norm x = Ok r ->
  not_negative (s_value r) /\ s_dtype r = dtype x.
Proof.
  intros Hs H. unfold gradient_internal.Norm in H.
  apply obind_Ok in H as (xx & _ & H).
  apply obind_Ok in H as (s & _ & H).
  injection H as <-. split; [|reflexivity].
  unfold Scalar_as. simpl.
  destruct (dtype x); try discriminate; simpl;
    apply SFround_not_negative, SFsqrt_not_negative.
Qed.

End NormExtras.

(** * The further properties on the sample data *)

Section ExtrasOnSamples.

Import gradient_internal.
Import Sample.

Local Abbreviation CalculateNumericalGradient :=
  (CalculateNumericalGradient other_ops indeterminate Scalar_add).
Local Abbreviation eval := (eval other_ops Scalar_add).
Local Abbreviation perturbed := (perturbed other_ops Scalar_add).

Lemma Sum_is_left_fold_witness :
  array_wf f34 /\ supported (dtype f34) = true /\
  Sum f34 = Ok (Scalar_float (to_float (dZ 7))).
Proof.
  assert (H1 : array_wf f34) by reflexivity.
  assert (H2 : supported (dtype f34) = true) by reflexivity.
  split; [exact H1|]. split; [exact H2|].
  rewrite (Sum_is_left_fold other_ops f34 H1 H2). vm_compute. reflexivity.
Defined.

Lemma Subtract_Divide_write_only_total_size_witness :
  array_wf d12 /\ dtype d35 = dtype d12 /\ dtype d789 = dtype d12 /\
  (length (data d12) <= length (data d35))%nat /\
  (length (data d12) <= length (data d789))%nat /\
  exists s q,
    Subtract other_ops d12 d35 d789 = Ok s /\
    Divide other_ops d12 d35 d789 = Ok q /\
    shape s = [3] /\ data s !! 2%nat = Some (dZ 9) /\
    data q !! 2%nat = Some (dZ 9).
Proof.
  assert (H1 : array_wf d12) by reflexivity.
  assert (H2 : dtype d35 = dtype d12) by reflexivity.
  assert (H3 : dtype d789 = dtype d12) by reflexivity.
  assert (H4 : (length (data d12) <= length (data d35))%nat) by (simpl; lia).
  assert (H5 : (length (data d12) <= length (data d789))%nat) by (simpl; lia).
  repeat (split; [assumption|]).
  destruct (Subtract_Divide_write_only_total_size other_ops d12 d35 d789
              H1 H2 H3 H4 H5)
    as (s & q & Hs & Hq & (Hsh & _) & _ & _ & Hrest).
  exists s, q. split; [exact Hs|]. split; [exact Hq|].
  split; [rewrite Hsh; reflexivity|].
  destruct (Hrest 2%nat ltac:(simpl; lia)) as [-> ->]. split; reflexivity.
Defined.

Lemma Subtract_Divide_short_buffer_undefined_witness :
  array_wf d35 /\
  (length (data x64) < length (data d35) \/
   length (data d35) < length (data d35))%nat /\
  Subtract other_ops d35 x64 d35 = Undefined /\
  Divide other_ops d35 x64 d35 = Undefined.
Proof.
  assert (H1 : array_wf d35) by reflexivity.
  assert (H2 : (length (data x64) < length (data d35) \/
                length (data d35) < length (data d35))%nat)
    by (left; simpl; lia).
  split; [exact H1|]. split; [exact H2|].
  exact (Subtract_Divide_short_buffer_undefined other_ops d35 x64 d35 H1 H2).
Defined.

Lemma Set_changes_one_element_witness :
  supported (dtype f12) = true /\ array_wf f12 /\ 0 <= 1 < total_size f12 /\
  exists a', Set_ f12 1 half = Ok a' /\ Get a' 0 = Get f12 0.
Proof.
  assert (H1 : supported (dtype f12) = true) by reflexivity.
  assert (H2 : array_wf f12) by reflexivity.
  assert (H3 : 0 <= 1 < total_size f12)
    by (vm_compute; split; [discriminate|reflexivity]).
  repeat (split; [assumption|]).
  destruct (Set_changes_one_element other_ops f12 1 half H1 H2 H3)
    as (a' & Hset & _ & _ & _ & _ & _ & Hother).
  exists a'. split; [exact Hset|]. apply Hother. discriminate.
Defined.

Lemma Identity_pass_through_witness :
  Forall array_wf [x64_grad; d35] /\
  exists o1 o2,
    Identity indeterminate [x64_grad; d35] = Ok [o1; o2] /\
    data o1 = data x64_grad /\ data o2 = data d35 /\
    node o1 = mkArrayNode (Some (mkOpNode "identity" [node x64_grad])) None.
Proof.
  assert (H1 : Forall array_wf [x64_grad; d35]) by (repeat constructor).
  split; [exact H1|].
  destruct (Identity_pass_through indeterminate [x64_grad; d35] H1)
    as (outs & Hid & Hlen & Hel).
  destruct (Hel 0%nat x64_grad eq_refl) as (o1 & Ho1 & _ & _ & Hd1 & Hn1).
  destruct (Hel 1%nat d35 eq_refl) as (o2 & Ho2 & _ & _ & Hd2 & _).
  destruct outs as [|a [|b [|c outs]]]; try discriminate.
  injection Ho1 as ->. injection Ho2 as ->.
  exists o1, o2. split; [exact Hid|]. split; [exact Hd1|]. split; [exact Hd2|].
  apply Hn1. reflexivity.
Defined.

Lemma Identity_into_short_outputs_witness :
  (length (@nil Array) < length [x64])%nat /\
  Identity_into [x64] [] = Undefined.
Proof.
  assert (H1 : (length (@nil Array) < length [x64])%nat) by (simpl; lia).
  split; [exact H1|].
  exact (Identity_into_short_outputs [x64] [] H1).
Defined.

Lemma Norm_not_negative_witness :
  supported (dtype f34) = true /\
  Norm other_ops indeterminate f34 = Ok (Scalar_float (to_float (dZ 5))) /\
  not_negative (to_float (dZ 5)).
Proof.
  assert (H1 : supported (dtype f34) = true) by reflexivity.
  assert (H2 : Norm other_ops indeterminate f34
               = Ok (Scalar_float (to_float (dZ 5))))
    by (vm_compute; reflexivity).
  split; [exact H1|]. split; [exact H2|].
  exact (proj1 (Norm_not_negative other_ops indeterminate f34 _ H1 H2)).
Defined.

Lemma no_grad_outputs_zero_gradient_witness :
  Z.of_nat (length [x64]) < 2 ^ 31 /\ length [eps64] = length [x64] /\
  Forall array_wf [x64] /\ Forall array_wf [eps64] /\
  Forall (fun x => supported (dtype x) = true) [x64] /\
  [x64] !! 0%nat = Some x64 /\
  exists g,
    fst (CalculateNumericalGradient identity_func [x64] [] [eps64] []) = Ok [g] /\
    data g = [num_zero].
Proof.
  assert (H1 : Z.of_nat (length [x64]) < 2 ^ 31) by reflexivity.
  assert (H3 : length [eps64] = length [x64]) by reflexivity.
  assert (H4 : Forall array_wf [x64]) by (repeat constructor).
  assert (H5 : Forall array_wf [eps64]) by (repeat constructor).
  assert (H6 : Forall (fun x => supported (dtype x) = true) [x64])
    by (repeat constructor).
  assert (H7 : [x64] !! 0%nat = Some x64) by reflexivity.
  repeat (split; [assumption|]).
  destruct (no_grad_outputs_zero_gradient other_ops indeterminate Scalar_add
              identity_func [x64] [eps64] x64 [] H1 H3 sample_eps_matches
              H4 H5 H6 H7) as (grads & Hrun & Hlen & Hel).
  destruct (Hel 0%nat x64 eq_refl) as (g & Hg & _ & _ & Hd).
  destruct grads as [|g0 [|g1 grads]];
    [discriminate Hg| |discriminate Hlen].
  injection Hg as ->.
  exists g. split; [rewrite Hrun; reflexivity|exact Hd].
Defined.

Lemma two_evaluations_per_element_witness :
  Z.of_nat (length [x64]) < 2 ^ 31 /\
  Z.of_nat (length [gout64]) < 2 ^ 31 /\
  length [eps64] = length [x64] /\
  Forall array_wf [x64] /\ Forall array_wf [eps64] /\
  Forall (fun x => supported (dtype x) = true) [x64] /\
  [x64] !! 0%nat = Some x64 /\
  length (snd (CalculateNumericalGradient identity_func [x64] [gout64]
                 [eps64] []))
  = 2%nat.
Proof.
  assert (H1 : Z.of_nat (length [x64]) < 2 ^ 31) by reflexivity.
  assert (H2 : Z.of_nat (length [gout64]) < 2 ^ 31) by reflexivity.
  assert (H3 : length [eps64] = length [x64]) by reflexivity.
  assert (H4 : Forall array_wf [x64]) by (repeat constructor).
  assert (H5 : Forall array_wf [eps64]) by (repeat constructor).
  assert (H6 : Forall (fun x => supported (dtype x) = true) [x64])
    by (repeat constructor).
  assert (H7 : [x64] !! 0%nat = Some x64) by reflexivity.
  repeat (split; [assumption|]).
  exact (two_evaluations_per_element other_ops indeterminate Scalar_add
           identity_func [x64] [gout64] [eps64] G64 x64 []
           H1 H2 H3 sample_eps_matches H4 H5 H6 H7 sample_contributions).
Defined.

Lemma first_eps_mismatch_decides_message_witness :
  Z.of_nat (length [x64; x64]) < 2 ^ 31 /\
  length [eps64; eps64_two] = length [x64; x64] /\
  [x64; x64] !! 1%nat = Some x64 /\ [eps64; eps64_two] !! 1%nat = Some eps64_two /\
  (shape x64 <> shape eps64_two \/ dtype x64 <> dtype eps64_two) /\
  CalculateNumericalGradient identity_func [x64; x64] [gout64]
    [eps64; eps64_two] []
  = (Throw (XchainerError "Invalid eps shape"), []).
Proof.
  assert (H1 : Z.of_nat (length [x64; x64]) < 2 ^ 31) by reflexivity.
  assert (H2 : length [eps64; eps64_two] = length [x64; x64]) by reflexivity.
  assert (H3 : forall j, (j < 1)%nat -> eps_matches [x64; x64] [eps64; eps64_two] j).
  { intros [|j] Hj; [|lia]. intros x e Hx He.
    injection Hx as <-. injection He as <-. split; reflexivity. }
  assert (H4 : [x64; x64] !! 1%nat = Some x64) by reflexivity.
  assert (H5 : [eps64; eps64_two] !! 1%nat = Some eps64_two) by reflexivity.
  assert (H6 : shape x64 <> shape eps64_two \/ dtype x64 <> dtype eps64_two)
    by (left; discriminate).
  repeat (split; [assumption|]).
  exact (first_eps_mismatch_decides_message other_ops indeterminate Scalar_add
           identity_func [x64; x64] [gout64] [eps64; eps64_two] [] 1 x64
           eps64_two H1 H2 H3 H4 H5 H6).
Defined.

Lemma too_few_outputs_out_of_range_witness :
  Z.of_nat (length [x64]) < 2 ^ 31 /\
  Z.of_nat (length [gout64]) < 2 ^ 31 /\
  length [eps64] = length [x64] /\
  [x64] !! 0%nat = Some x64 /\ [eps64] !! 0%nat = Some eps64 /\
  array_wf x64 /\ array_wf eps64 /\ supported (dtype x64) = true /\
  data x64 !! 0%nat = Some (dZ 1) /\ data eps64 !! 0%nat = Some (dQ 1 2) /\
  [gout64] <> [] /\
  fst (CalculateNumericalGradient no_output_func [x64] [gout64] [eps64] [])
  = Throw out_of_range.
Proof.
  assert (H1 : Z.of_nat (length [x64]) < 2 ^ 31) by reflexivity.
  assert (H2 : Z.of_nat (length [gout64]) < 2 ^ 31) by reflexivity.
  assert (H3 : length [eps64] = length [x64]) by reflexivity.
  assert (H4 : [x64] !! 0%nat = Some x64) by reflexivity.
  assert (H5 : [eps64] !! 0%nat = Some eps64) by reflexivity.
  assert (H6 : array_wf x64) by reflexivity.
  assert (H7 : array_wf eps64) by reflexivity.
  assert (H8 : supported (dtype x64) = true) by reflexivity.
  assert (H9 : data x64 !! 0%nat = Some (dZ 1)) by reflexivity.
  assert (H10 : data eps64 !! 0%nat = Some (dQ 1 2)) by reflexivity.
  assert (H11 : [gout64] <> []) by discriminate.
  repeat (split; [assumption|]).
  rewrite (too_few_outputs_out_of_range other_ops indeterminate Scalar_add
             no_output_func [x64] [gout64] [eps64] x64 eps64 (dZ 1) (dQ 1 2) []
             H1 H2 H3 sample_eps_matches H4 H5 H6 H7 H8 H9 H10 H11 eq_refl).
  reflexivity.
Defined.

Lemma eval_perturbs_one_element_witness :
  [d35] !! 0%nat = Some d35 /\ supported (dtype d35) = true /\
  data d35 !! 1%nat = Some (dZ 5) /\
  exists y,
    snd (eval identity_func [d35] kFloat64 0 1 half (to_float num_one) [])
    = [[y]] /\
    data y !! 0%nat = Some (dZ 3).
Proof.
  assert (H1 : [d35] !! 0%nat = Some d35) by reflexivity.
  assert (H2 : supported (dtype d35) = true) by reflexivity.
  assert (H3 : data d35 !! 1%nat = Some (dZ 5)) by reflexivity.
  repeat (split; [assumption|]).
  destruct (eval_perturbs_one_element other_ops Scalar_add identity_func [d35]
              kFloat64 0 1 d35 (dZ 5) half (to_float num_one) [] H1 H2 H3)
    as (xs & Hrun & Hlen & Hel).
  destruct (Hel 0%nat d35 eq_refl) as (y & Hy & _ & _ & _ & Hk).
  destruct xs as [|y0 [|y1 xs]]; try discriminate.
  injection Hy as ->.
  exists y. split.
  - change 0 with (Z.of_nat 0). change 1 with (Z.of_nat 1).
    rewrite Hrun. reflexivity.
  - rewrite (Hk 0%nat) by (right; discriminate). reflexivity.
Defined.

Lemma sample_elementwise_outputs :
  forall i k p j, (j < length [gout64])%nat ->
    exists y, identity_func (perturbed [x64] i k p) !! j = Some y /\
              array_wf y /\ dtype y = kFloat64 /\ length (data y) = 1%nat.
Proof.
  intros i k p j Hj. destruct j as [|j]; [|simpl in Hj; lia].
  destruct i as [|i].
  - eexists. split; [reflexivity|]. split; [|split; [reflexivity|]].
    + unfold array_wf. simpl. rewrite length_alter. reflexivity.
    + simpl. rewrite length_alter. reflexivity.
  - eexists. split; [reflexivity|]. repeat split.
Defined.

Lemma elementwise_numerical_gradient_witness :
  Z.of_nat (length [x64]) < 2 ^ 31 /\
  Z.of_nat (length [gout64]) < 2 ^ 31 /\
  length [eps64] = length [x64] /\ supported kFloat64 = true /\
  [x64] !! 0%nat = Some x64 /\
  exists g t',
    CalculateNumericalGradient identity_func [x64] [gout64] [eps64] []
    = (Ok [g], t') /\
    shape g = shape x64 /\ dtype g = kFloat64.
Proof.
  assert (H1 : Z.of_nat (length [x64]) < 2 ^ 31) by reflexivity.
  assert (H2 : Z.of_nat (length [gout64]) < 2 ^ 31) by reflexivity.
  assert (H3 : length [eps64] = length [x64]) by reflexivity.
  assert (H4 : supported kFloat64 = true) by reflexivity.
  assert (H5 : forall i x, [x64] !! i = Some x ->
                 array_wf x /\ dtype x = kFloat64 /\ length (data x) = 1%nat).
  { intros [|i] x Hx; [|discriminate]. injection Hx as <-.
    repeat split. }
  assert (H6 : forall i x e, [x64] !! i = Some x -> [eps64] !! i = Some e ->
                 array_wf e /\ shape e = shape x /\ dtype e = kFloat64).
  { intros [|i] x e Hx He; [|discriminate].
    injection Hx as <-. injection He as <-. repeat split. }
  assert (H7 : forall j g, [gout64] !! j = Some g ->
                 dtype g = kFloat64 /\ length (data g) = 1%nat).
  { intros [|j] g Hg; [|discriminate]. injection Hg as <-. split; reflexivity. }
  assert (H8 : [x64] !! 0%nat = Some x64) by reflexivity.
  repeat (split; [assumption|]).
  destruct (elementwise_numerical_gradient other_ops indeterminate Scalar_add
              identity_func [x64] [gout64] [eps64] kFloat64 1 x64 []
              H1 H2 H3 H4 H5 H6 H7 sample_elementwise_outputs H8)
    as (grads & t' & Hrun & Hlen & Hel).
  destruct (Hel 0%nat x64 eps64 0%nat (dQ 1 2) eq_refl eq_refl eq_refl)
    as (g & Hg & Hsh & Hd & _).
  destruct grads as [|g0 [|g1 grads]]; try discriminate.
  injection Hg as ->.
  exists g, t'. split; [exact Hrun|]. split; assumption.
Defined.

Lemma backprop_failure_propagates_witness :
  Forall array_wf (identity_func [x64]) /\
  length (identity_func [x64]) = length [gout64] /\
  identity_func [x64] <> [] /\
  (forall root, Backward_fails root = Throw (XchainerError "backprop failed")) /\
  CheckBackwardComputation other_ops indeterminate Scalar_add AllClose
    Backward_fails missing_gradient identity_func [x64] [gout64] [eps64] atol rtol []
  = (Throw (XchainerError "backprop failed"), [[x64]]).
Proof.
  assert (H1 : Forall array_wf (identity_func [x64])) by (repeat constructor).
  assert (H2 : length (identity_func [x64]) = length [gout64]) by reflexivity.
  assert (H3 : identity_func [x64] <> []) by discriminate.
  assert (H4 : forall root,
             Backward_fails root = Throw (XchainerError "backprop failed"))
    by reflexivity.
  repeat (split; [assumption|]).
  exact (backprop_failure_propagates other_ops indeterminate Scalar_add AllClose
           Backward_fails missing_gradient identity_func [x64] [gout64] [eps64] atol rtol [] _
           H1 H2 H3 H4).
Defined.

Lemma no_outputs_undefined_witness :
  no_output_func [x64] = [] /\
  CheckBackwardComputation other_ops indeterminate Scalar_add AllClose Backward missing_gradient
    no_output_func [x64] [] [eps64] atol rtol []
  = (Undefined, [[x64]]).
Proof.
  assert (H1 : no_output_func [x64] = []) by reflexivity.
  split; [exact H1|].
  exact (no_outputs_undefined other_ops indeterminate Scalar_add AllClose
           Backward missing_gradient no_output_func [x64] [eps64] atol rtol [] H1).
Defined.

Lemma eps_count_checked_after_backprop_witness :
  Forall array_wf (identity_func [x64]) /\
  length (identity_func [x64]) = length [gout64] /\
  identity_func [x64] <> [] /\
  Z.of_nat (length [x64]) < 2 ^ 31 /\
  length (@nil Array) <> length [x64] /\
  CheckBackwardComputation other_ops indeterminate Scalar_add AllClose
    Backward_stores_gout missing_gradient identity_func [x64] [gout64] [] atol rtol []
  = (Throw (XchainerError "Invalid number of eps arrays"), [[x64]]).
Proof.
  assert (H1 : Forall array_wf (identity_func [x64])) by (repeat constructor).
  assert (H2 : length (identity_func [x64]) = length [gout64]) by reflexivity.
  assert (H3 : identity_func [x64] <> []) by discriminate.
  assert (H4 : forall root,
             Backward_stores_gout root = Ok (fun _ : Array => Some gout64))
    by reflexivity.
  assert (H5 : forall x, x ∈ [x64] -> (fun _ : Array => Some gout64) x <> None)
    by (intros x _; discriminate).
  assert (H6 : Z.of_nat (length [x64]) < 2 ^ 31) by reflexivity.
  assert (H7 : length (@nil Array) <> length [x64]) by (simpl; lia).
  repeat (split; [assumption|]).
  exact (eps_count_checked_after_backprop other_ops indeterminate Scalar_add
           AllClose Backward_stores_gout missing_gradient identity_func [x64] [gout64] []
           atol rtol [] _ H1 H2 H3 H4 H5 H6 H7).
Defined.

End ExtrasOnSamples.
